(** * rad-claude: skill-matching confidence scorer and path validator

    A shallow embedding of [src/services/confidence-scorer.ts] and
    [src/services/security.ts].

    - JavaScript strings are modelled by [string], read as sequences of
      code units below 256 (Latin-1); [toLowerCase] folds the capitals of
      that range, [A-Z] and U+00C0 to U+00DE without the multiplication
      sign.  The patterns under the [i] flag are ASCII, so its case folding
      only ever identifies ASCII letters.
    - JavaScript numbers are IEEE 754 binary64 values.  The sub-scores are
      small integers and are kept in [Z]; the weighted combination is done
      with the kernel's binary64 [float], operation by operation as in the
      source.
    - A call that can throw returns an [outcome]. *)

From Stdlib Require Import String Ascii List ZArith QArith Qround Qabs Bool Lia.
From Stdlib Require Import Floats.
From Stdlib Require Import Permutation.
Import ListNotations.

Local Open Scope string_scope.
Local Open Scope Z_scope.

(** ** JavaScript string primitives *)

Module JsString.

(** The lower case of a code unit below 256: [A-Z], and the Latin-1
    capitals U+00C0 to U+00DE except U+00D7, move up by 32. *)
Definition lower_ascii (c : ascii) : ascii :=
  let n := nat_of_ascii c in
  if orb (andb (Nat.leb 65 n) (Nat.leb n 90))
         (andb (andb (Nat.leb 192 n) (Nat.leb n 222)) (negb (Nat.eqb n 215)))
  then ascii_of_nat (n + 32) else c.

Definition upper_ascii (c : ascii) : ascii :=
  let n := nat_of_ascii c in
  if andb (Nat.leb 97 n) (Nat.leb n 122) then ascii_of_nat (n - 32) else c.

(** [s.toLowerCase()] *)
Fixpoint toLowerCase (s : string) : string :=
  match s with
  | EmptyString => EmptyString
  | String c s' => String (lower_ascii c) (toLowerCase s')
  end.

(** [s.startsWith(p)] *)
Definition startsWith (s p : string) : bool := String.prefix p s.

(** [s.includes(sub)]: [sub] occurs at some position of [s]. *)
Fixpoint includes (s sub : string) : bool :=
  orb (String.prefix sub s)
      match s with
      | EmptyString => false
      | String _ s' => includes s' sub
      end.

(** [s.endsWith(c)] for a one-character [c]. *)
Fixpoint endsWith (s : string) (c : ascii) : bool :=
  match s with
  | EmptyString => false
  | String a EmptyString => Ascii.eqb a c
  | String _ s' => endsWith s' c
  end.

(** [sub] is a substring of [s]: [s = pre ++ sub ++ post]. *)
Definition Substring (sub s : string) : Prop :=
  exists pre post, s = pre ++ sub ++ post.

End JsString.
Import JsString.

(** ** Outcome of a call that may throw *)

Inductive exn : Type :=
| TypeError (msg : string).

Inductive outcome (A : Type) : Type :=
| Returns (a : A)
| Throws (e : exn).
Arguments Returns {A} a.
Arguments Throws {A} e.

Definition bind {A B : Type} (m : outcome A) (k : A -> outcome B) : outcome B :=
  match m with
  | Returns a => k a
  | Throws e => Throws e
  end.

Notation "x <- m ;; k" := (bind m (fun x => k))
  (at level 61, m at next level, right associativity).

(** ** confidence-scorer.ts *)

(** The [{ score, matches }] object returned by the three sub-scorers. *)
Record ScoreResult : Type := mkScoreResult {
  score : Z;
  matches : list string;
}.

(** [matches.length] as a number. *)
Definition len (matches : list string) : Z := Z.of_nat (length matches).

(** The [for (const keyword of keywords)] loop of [calculateKeywordScore];
    [matches] is the array being pushed to. *)
Fixpoint keywordLoop (normalizedPrompt : string) (keywords matches : list string)
  : list string :=
  match keywords with
  | [] => matches
  | keyword :: rest =>
      if includes normalizedPrompt keyword
      then keywordLoop normalizedPrompt rest (matches ++ [keyword])
      else keywordLoop normalizedPrompt rest matches
  end.

Definition calculateKeywordScore (prompt : string) (keywords : list string)
  : ScoreResult :=
  let normalizedPrompt := toLowerCase prompt in
  let matches := keywordLoop normalizedPrompt keywords [] in
  if len matches =? 0 then mkScoreResult 0 []
  else
    let baseScore := 70 in
    let bonusPerMatch := 5 in
    let score := Z.min 100 (baseScore + (len matches - 1) * bonusPerMatch) in
    mkScoreResult score matches.

(** *** File patterns

    [minimatch] is the npm package of that name; the scorer only uses it as
    a test [minimatch(file, pattern, { dot: true })], which is what the
    section variable stands for. *)

Section FileScore.

Variable minimatch : string -> string -> bool.

(** The inner [for (const pattern of filePatterns)] loop: on the first
    pattern that matches, push [file] and [break]. *)
Fixpoint patternLoop (file : string) (filePatterns matches : list string)
  : list string :=
  match filePatterns with
  | [] => matches
  | pattern :: rest =>
      if minimatch file pattern then matches ++ [file]
      else patternLoop file rest matches
  end.

(** The outer [for (const file of openFiles)] loop. *)
Fixpoint fileLoop (openFiles filePatterns matches : list string) : list string :=
  match openFiles with
  | [] => matches
  | file :: rest => fileLoop rest filePatterns (patternLoop file filePatterns matches)
  end.

Definition calculateFileScore (openFiles filePatterns : list string) : ScoreResult :=
  if orb (len filePatterns =? 0) (len openFiles =? 0) then mkScoreResult 0 []
  else
    let matches := fileLoop openFiles filePatterns [] in
    if len matches =? 0 then mkScoreResult 0 []
    else
      let baseScore := 80 in
      let bonusPerMatch := 10 in
      let score := Z.min 100 (baseScore + (len matches - 1) * bonusPerMatch) in
      mkScoreResult score matches.

End FileScore.

(** *** Regular expressions

    The fragment of JavaScript regular expressions that [SEMANTIC_PATTERNS]
    is written in: literal characters, [.*], alternation, sequencing and the
    word-boundary assertion [\b], under the [i] flag and without the [g] or
    [y] flags (so [test] keeps no state between calls). *)

Module Regex.

Inductive regex : Type :=
| Chr (c : ascii)           (* a literal character *)
| DotStar                   (* [.*] *)
| Seq (r1 r2 : regex)       (* [r1 r2] *)
| Alt (r1 r2 : regex)       (* [r1|r2] *)
| Empty                     (* the empty pattern *)
| WordBoundary.             (* [\b] *)

(** [\w]: [A-Za-z0-9_]. *)
Definition isWordChar (c : ascii) : bool :=
  let n := nat_of_ascii c in
  orb (orb (andb (Nat.leb 48 n) (Nat.leb n 57))
           (andb (Nat.leb 65 n) (Nat.leb n 90)))
      (orb (andb (Nat.leb 97 n) (Nat.leb n 122)) (Nat.eqb n 95)).

(** [.] does not match a line terminator. *)
Definition isLineTerminator (c : ascii) : bool :=
  let n := nat_of_ascii c in orb (Nat.eqb n 10) (Nat.eqb n 13).

(** Character comparison under the [i] flag. *)
Definition sameChar (a c : ascii) : bool :=
  Ascii.eqb (upper_ascii a) (upper_ascii c).

Definition isWordAt (c : option ascii) : bool :=
  match c with
  | Some a => isWordChar a
  | None => false
  end.

Definition head (s : string) : option ascii :=
  match s with
  | EmptyString => None
  | String a _ => Some a
  end.

(** Backtracking matcher.  [prev] is the character before the current
    position (none at the start of the input), [s] the rest of the input,
    and [k] the continuation that has to accept what [r] leaves. *)
Fixpoint matchAt (r : regex) (prev : option ascii) (s : string)
         (k : option ascii -> string -> bool) : bool :=
  match r with
  | Chr c =>
      match s with
      | String a s' => if sameChar a c then k (Some a) s' else false
      | EmptyString => false
      end
  | DotStar =>
      (fix skip (prev : option ascii) (s : string) : bool :=
         orb (k prev s)
             match s with
             | String a s' =>
                 if isLineTerminator a then false else skip (Some a) s'
             | EmptyString => false
             end) prev s
  | Seq r1 r2 => matchAt r1 prev s (fun p s' => matchAt r2 p s' k)
  | Alt r1 r2 => orb (matchAt r1 prev s k) (matchAt r2 prev s k)
  | Empty => k prev s
  | WordBoundary =>
      if xorb (isWordAt prev) (isWordAt (head s)) then k prev s else false
  end.

(** Try every start position, left to right. *)
Fixpoint search (r : regex) (prev : option ascii) (s : string) : bool :=
  orb (matchAt r prev s (fun _ _ => true))
      match s with
      | String a s' => search r (Some a) s'
      | EmptyString => false
      end.

(** [r.test(s)] *)
Definition test (r : regex) (s : string) : bool := search r None s.

(** A literal word. *)
Fixpoint lit (w : string) : regex :=
  match w with
  | EmptyString => Empty
  | String c EmptyString => Chr c
  | String c w' => Seq (Chr c) (lit w')
  end.

(** [a.*b] *)
Definition gap (a b : string) : regex := Seq (lit a) (Seq DotStar (lit b)).

(** [r1|r2|...|rn] *)
Fixpoint alts (r : regex) (rs : list regex) : regex :=
  match rs with
  | [] => r
  | r' :: rs' => Alt r (alts r' rs')
  end.

(** [\b(r1|...|rn)] *)
Definition bounded (r : regex) (rs : list regex) : regex :=
  Seq WordBoundary (alts r rs).

End Regex.
Import Regex.

(** *** Property lookup on an object literal

    [obj[key]] on an object literal finds the object's own property, or
    else what [Object.prototype] provides under that name ([constructor],
    [toString], [__proto__], ...), or else [undefined]. *)

Inductive jsval (A : Type) : Type :=
| Own (a : A)         (* the value stored in the literal *)
| Inherited           (* a member of [Object.prototype]: a function or object *)
| Undefined.
Arguments Own {A} a.
Arguments Inherited {A}.
Arguments Undefined {A}.

Definition Object_prototype : list string :=
  [ "constructor"; "hasOwnProperty"; "isPrototypeOf"; "propertyIsEnumerable";
    "toLocaleString"; "toString"; "valueOf"; "__proto__";
    "__defineGetter__"; "__defineSetter__"; "__lookupGetter__"; "__lookupSetter__" ].

Fixpoint ownProperty {A : Type} (obj : list (string * A)) (key : string) : option A :=
  match obj with
  | [] => None
  | (k, v) :: rest => if String.eqb k key then Some v else ownProperty rest key
  end.

Definition getProperty {A : Type} (obj : list (string * A)) (key : string) : jsval A :=
  match ownProperty obj key with
  | Some v => Own v
  | None => if existsb (String.eqb key) Object_prototype then Inherited else Undefined
  end.

(** [v ?? d] *)
Definition nullish {A : Type} (v : jsval A) (d : A) : jsval A :=
  match v with
  | Undefined => Own d
  | _ => v
  end.

(** *** Semantic content *)

Definition SEMANTIC_PATTERNS : list (string * regex) :=
  [ ("webhook/callback",
      bounded (lit "webhook")
        [lit "callback"; gap "event" "handler"; gap "api" "endpoint";
         gap "http" "action"; gap "external" "api"; lit "payload";
         gap "signature" "verif"]);
    ("payment/stripe",
      bounded (lit "stripe")
        [lit "payment"; lit "checkout"; lit "charge"; lit "subscription";
         lit "invoice"; lit "billing"; lit "transaction"; lit "card"]);
    ("auth/session",
      bounded (lit "auth")
        [lit "login"; lit "signup"; lit "session"; lit "jwt"; lit "oauth";
         lit "token"; lit "credentials"; lit "password"; gap "user" "management"]);
    ("database/schema",
      bounded (lit "schema")
        [lit "table"; lit "query"; lit "mutation"; lit "database";
         gap "data" "model"; lit "field"; lit "index"; lit "migration"]);
    ("validation/security",
      bounded (lit "validat")
        [lit "sanitiz"; lit "xss"; gap "sql" "inject"; lit "csrf";
         gap "rate" "limit"; lit "audit"; lit "pii"; lit "encrypt"]);
    ("realtime/convex",
      bounded (lit "realtime")
        [gap "live" "query"; lit "subscri"; lit "reactive"; lit "websocket";
         lit "sse"; gap "push" "notif"]);
    ("forms/input",
      bounded (lit "form")
        [lit "input"; lit "textarea"; lit "checkbox"; lit "radio"; lit "select";
         lit "validation"; lit "submit"; lit "field"]);
    ("api/http",
      bounded (lit "api")
        [lit "rest"; lit "endpoint"; lit "route"; lit "request"; lit "response";
         lit "fetch"; lit "axios"; gap "http" "client"]) ].

Definition skillPatterns : list (string * list string) :=
  [ ("convex-patterns",
      ["webhook/callback"; "database/schema"; "realtime/convex"; "api/http"]);
    ("security-patterns",
      ["validation/security"; "auth/session"; "payment/stripe"]);
    ("react-patterns", ["forms/input"; "realtime/convex"]);
    ("typescript-patterns", ["database/schema"; "validation/security"]) ].

(** [pattern?.test(normalizedPrompt)]: [undefined] short-circuits to a falsy
    value; a regular expression is tested; anything else has no callable
    [test]. *)
Definition optionalTest (pattern : jsval regex) (normalizedPrompt : string)
  : outcome bool :=
  match pattern with
  | Own r => Returns (test r normalizedPrompt)
  | Undefined => Returns false
  | Inherited => Throws (TypeError "pattern?.test is not a function")
  end.

(** The [for (const patternName of relevantPatterns)] loop over an array. *)
Fixpoint contentLoop (normalizedPrompt : string) (relevantPatterns matches : list string)
  : outcome (list string) :=
  match relevantPatterns with
  | [] => Returns matches
  | patternName :: rest =>
      let pattern := getProperty SEMANTIC_PATTERNS patternName in
      hit <- optionalTest pattern normalizedPrompt ;;
      if (hit : bool)
      then contentLoop normalizedPrompt rest (matches ++ [patternName])
      else contentLoop normalizedPrompt rest matches
  end.

(** [for ... of] needs an iterable: an array is one, a member of
    [Object.prototype] is not. *)
Definition forOfContent (normalizedPrompt : string) (relevantPatterns : jsval (list string))
  : outcome (list string) :=
  match relevantPatterns with
  | Own arr => contentLoop normalizedPrompt arr []
  | _ => Throws (TypeError "relevantPatterns is not iterable")
  end.

Definition calculateContentScore (prompt skillName : string) : outcome ScoreResult :=
  let normalizedPrompt := toLowerCase prompt in
  let relevantPatterns := nullish (getProperty skillPatterns skillName) [] in
  matches <- forOfContent normalizedPrompt relevantPatterns ;;
  if len matches =? 0 then Returns (mkScoreResult 0 [])
  else
    let baseScore := 70 in
    let bonusPerMatch := 10 in
    let score := Z.min 100 (baseScore + (len matches - 1) * bonusPerMatch) in
    Returns (mkScoreResult score matches).

(** *** Numbers

    The weights, their normalisation and the weighted sum are binary64
    computations. *)

(** The binary64 value of an integer (exact below 2^53). *)
Definition Z2F (z : Z) : float := SF2Prim (binary_normalize prec emax z 0 false).

(** [Math.round(x)]: the integer [floor(x + 1/2)], computed exactly; zeros,
    infinities and NaN are returned unchanged, and a negative [x] that
    rounds to zero gives [-0]. *)
Definition Math_round (x : float) : float :=
  match Prim2SF x with
  | S754_finite s m e =>
      let v := if s then Z.neg m else Z.pos m in
      let n := if 0 <=? e then v * 2 ^ e
               else (2 * v + 2 ^ (- e)) / 2 ^ (1 - e) in
      if n =? 0 then (if s then neg_zero else zero) else Z2F n
  | _ => x
  end.

Module WEIGHTS.
#[warnings="-inexact-float"]
Definition keywords : float := 0.4.
#[warnings="-inexact-float"]
Definition files : float := 0.3.
#[warnings="-inexact-float"]
Definition content : float := 0.3.
End WEIGHTS.

(** *** Data model (types/schemas.ts) *)

Record DiscoveredSkill : Type := mkSkill {
  name : string;
  description : string;
  keywords : list string;
  filePatterns : list string;
  skillPath : string;
  skillMdPath : string;
}.

Record MatchDetails : Type := mkDetails {
  keywordMatches : list string;
  fileMatches : list string;
  contentMatches : list string;
  keywordScore : Z;
  fileScore : Z;
  contentScore : Z;
}.

(** The optional [context] argument, with its two optional fields. *)
Record Context : Type := mkContext {
  openFiles : option (list string);
  fileContents : option (list string);
}.

Record Confidence : Type := mkConfidence {
  confidence : float;
  details : MatchDetails;
}.

(** [context?.openFiles ?? []] *)
Definition openFilesOf (context : option Context) : list string :=
  match context with
  | Some c => match openFiles c with Some fs => fs | None => [] end
  | None => []
  end.

(** [arr.reduce((sum, x, i) => f(sum, x, i), init)], from index [i]. *)
Fixpoint reduceFrom {A B : Type} (f : B -> A -> nat -> B) (i : nat) (arr : list A) (acc : B)
  : B :=
  match arr with
  | [] => acc
  | x :: rest => reduceFrom f (S i) rest (f acc x i)
  end.

Definition reduce {A B : Type} (f : B -> A -> nat -> B) (arr : list A) (init : B) : B :=
  reduceFrom f 0 arr init.

(** The tail of [calculateConfidence]: normalise the active weights and
    take the weighted average of the active scores. *)
Definition weightedAverage (activeWeights : list float) (activeScores : list Z) : float :=
  let totalWeight := reduce (fun sum w _ => (sum + w)%float) activeWeights zero in
  let normalizedWeights := map (fun w => (w / totalWeight)%float) activeWeights in
  let confidence :=
    reduce (fun sum score i =>
              (sum + Z2F score * nth i normalizedWeights zero)%float)
           activeScores zero in
  Math_round confidence.

(** The two arrays [activeWeights] and [activeScores] after the three
    [if (... .score > 0)] pushes. *)
Definition pushIfActive (weight : float) (score : Z) (active : list float * list Z)
  : list float * list Z :=
  if 0 <? score then ((fst active ++ [weight])%list, (snd active ++ [score])%list)
  else active.

Section Confidence.

Variable minimatch : string -> string -> bool.

Definition calculateConfidence (prompt : string) (skill : DiscoveredSkill)
           (context : option Context) : outcome Confidence :=
  let keywordResult := calculateKeywordScore prompt (keywords skill) in
  let fileResult :=
    calculateFileScore minimatch (openFilesOf context) (filePatterns skill) in
  contentResult <- calculateContentScore prompt (name skill) ;;
  let active := ([], []) in
  let active := pushIfActive WEIGHTS.keywords (score keywordResult) active in
  let active := pushIfActive WEIGHTS.files (score fileResult) active in
  let active := pushIfActive WEIGHTS.content (score contentResult) active in
  let (activeWeights, activeScores) := active in
  if Nat.eqb (length activeWeights) 0
  then Returns (mkConfidence zero (mkDetails [] [] [] 0 0 0))
  else
    Returns (mkConfidence
               (weightedAverage activeWeights activeScores)
               (mkDetails (matches keywordResult) (matches fileResult)
                          (matches contentResult)
                          (score keywordResult) (score fileResult)
                          (score contentResult))).

End Confidence.

(** ** security.ts *)

Record SecurityError : Type := mkSecurityError {
  message : string;
  attemptedPath : string;
  reason : string;
}.

(** [Result<T, E>] of types/schemas.ts. *)
Inductive Result (T E : Type) : Type :=
| ok (value : T)
| err (error : E).
Arguments ok {T E} value.
Arguments err {T E} error.

(** What [validatePath] uses of Node: [sep], [normalize] and [resolve] of
    [node:path], and [realpathSync] and [existsSync] of [node:fs] on the
    file system of the moment.  [realpathSync] is [None] where Node throws. *)
Record Platform : Type := mkPlatform {
  sep : ascii;
  normalize : string -> string;
  resolve : list string -> string;
  realpathSync : string -> option string;
  existsSync : string -> bool;
}.

Definition withSep (P : Platform) (dir : string) : string :=
  if endsWith dir (sep P) then dir else dir ++ String (sep P) EmptyString.

Definition validatePath (P : Platform) (targetPath allowedDir : string)
  : Result string SecurityError :=
  (* Step 1 *)
  match realpathSync P allowedDir with
  | None =>
      err (mkSecurityError ("Allowed directory does not exist: " ++ allowedDir)
                           allowedDir "allowed_dir_not_found")
  | Some resolvedAllowedDir =>
      (* Step 2 *)
      let normalizedPath := normalize P targetPath in
      let absolutePath := resolve P [normalizedPath] in
      (* Step 3 *)
      let allowedPrefix := withSep P resolvedAllowedDir in
      if negb (startsWith absolutePath allowedPrefix) then
        err (mkSecurityError
               "Access denied: Path is outside allowed directory (.claude/)"
               targetPath "outside_allowed_directory")
      (* Step 4 *)
      else if negb (existsSync P absolutePath) then
        err (mkSecurityError ("Path does not exist: " ++ targetPath)
                             targetPath "path_not_found")
      else
        (* Step 5 *)
        match realpathSync P absolutePath with
        | None =>
            err (mkSecurityError ("Cannot resolve path: " ++ targetPath)
                                 targetPath "path_resolution_failed")
        | Some resolvedPath =>
            (* Step 6 *)
            let projectRoot := resolve P [resolvedAllowedDir; ".."] in
            let projectPrefix := withSep P projectRoot in
            if negb (startsWith resolvedPath projectPrefix) then
              err (mkSecurityError
                     "Access denied: Symlink points outside project directory"
                     targetPath "symlink_outside_project")
            (* Step 7 *)
            else if includes normalizedPath ".." then
              err (mkSecurityError ("Path traversal detected: " ++ targetPath)
                                   targetPath "path_traversal_detected")
            else ok resolvedPath
        end
  end.

(** *** A POSIX platform

    [path.posix.normalize] and [path.posix.resolve], segment by segment, over
    a file system given by its working directory and the table of the
    absolute paths that exist, each with its canonical (symlink-free) path. *)

Module Posix.

(** Split at every ["/"]. *)
Fixpoint split (s : string) (cur : string) : list string :=
  match s with
  | EmptyString => [cur]
  | String c s' =>
      if Ascii.eqb c "/"%char then cur :: split s' EmptyString
      else split s' (cur ++ String c EmptyString)
  end.

Fixpoint join (segs : list string) : string :=
  match segs with
  | [] => EmptyString
  | [seg] => seg
  | seg :: rest => seg ++ "/" ++ join rest
  end.

(** Node's [normalizeString]: drop empty and ["."] segments, let [".."]
    cancel the segment before it, and keep a leading [".."] only when
    [allowAboveRoot].  [res] holds the segments kept so far, last first. *)
Fixpoint normalizeSegments (allowAboveRoot : bool) (res segs : list string)
  : list string :=
  match segs with
  | [] => rev res
  | seg :: rest =>
      if orb (String.eqb seg "") (String.eqb seg ".") then
        normalizeSegments allowAboveRoot res rest
      else if String.eqb seg ".." then
        match res with
        | last :: res' =>
            if String.eqb last ".." then
              normalizeSegments allowAboveRoot
                (if allowAboveRoot then ".." :: res else res) rest
            else normalizeSegments allowAboveRoot res' rest
        | [] =>
            normalizeSegments allowAboveRoot
              (if allowAboveRoot then [".."] else []) rest
        end
      else normalizeSegments allowAboveRoot (seg :: res) rest
  end.

Definition normalizeString (path : string) (allowAboveRoot : bool) : string :=
  join (normalizeSegments allowAboveRoot [] (split path EmptyString)).

Definition isAbsolute (path : string) : bool := startsWith path "/".

Definition normalize (path : string) : string :=
  if String.eqb path "" then "."
  else
    let trailingSeparator := endsWith path "/"%char in
    let p := normalizeString path (negb (isAbsolute path)) in
    if String.eqb p "" then
      if isAbsolute path then "/"
      else if trailingSeparator then "./" else "."
    else
      let p := if trailingSeparator then p ++ "/" else p in
      if isAbsolute path then "/" ++ p else p.

(** The right-to-left scan of [resolve]: [args] is given last first and
    ends with the working directory. *)
Fixpoint resolveScan (args : list string) (resolvedPath : string) : string :=
  match args with
  | [] => resolvedPath
  | path :: rest =>
      if String.eqb path "" then resolveScan rest resolvedPath
      else
        let resolvedPath := path ++ "/" ++ resolvedPath in
        if isAbsolute path then resolvedPath else resolveScan rest resolvedPath
  end.

Definition resolve (cwd : string) (args : list string) : string :=
  let resolvedPath := resolveScan (rev args ++ [cwd]) EmptyString in
  let resolvedAbsolute := isAbsolute resolvedPath in
  let p := normalizeString resolvedPath (negb resolvedAbsolute) in
  if resolvedAbsolute then "/" ++ p
  else if String.eqb p "" then "." else p.

Record FileSystem : Type := mkFileSystem {
  cwd : string;
  canonical : list (string * string);
}.

(** The canonical path recorded for [path], if [path] exists. *)
Fixpoint lookup (table : list (string * string)) (path : string) : option string :=
  match table with
  | [] => None
  | (p, target) :: rest => if String.eqb p path then Some target else lookup rest path
  end.

Definition platform (fs : FileSystem) : Platform :=
  mkPlatform "/"%char normalize (resolve (cwd fs))
             (fun p => lookup (canonical fs) (resolve (cwd fs) [p]))
             (fun p => match lookup (canonical fs) (resolve (cwd fs) [p]) with
                       | Some _ => true
                       | None => false
                       end).

End Posix.

(** ** The specification's reading of the scores *)

Module Spec.

(** The keywords of the list that occur in the lowercased prompt. *)
Definition matchedKeywords (prompt : string) (keywords : list string) : list string :=
  filter (fun k => includes (toLowerCase prompt) k) keywords.

(** The keyword score counted over the distinct matched keywords: 0 for
    none, else 70 plus 5 for each one after the first, at most 100. *)
Definition keywordScoreDistinct (prompt : string) (keywords : list string) : Z :=
  let distinct := nodup string_dec (matchedKeywords prompt keywords) in
  match distinct with
  | [] => 0
  | _ => Z.min 100 (70 + 5 * (len distinct - 1))
  end.

(** The open files that some pattern matches. *)
Definition matchedFiles (minimatch : string -> string -> bool)
           (openFiles filePatterns : list string) : list string :=
  filter (fun f => existsb (minimatch f) filePatterns) openFiles.

(** The three signals with their weights; a signal is active when its
    score is strictly positive. *)
Definition signals (ks fs cs : Z) : list (Q * Z) :=
  [ (4 # 10, ks); (3 # 10, fs); (3 # 10, cs) ].

Definition active (ks fs cs : Z) : list (Q * Z) :=
  filter (fun ws => 0 <? snd ws) (signals ks fs cs).

Definition Qsum (qs : list Q) : Q := fold_right Qplus 0%Q qs.

(** Each active weight divided by the sum of the active weights, times its
    score, summed. *)
Definition weightedSum (ks fs cs : Z) : Q :=
  let act := active ks fs cs in
  let total := Qsum (map fst act) in
  Qsum (map (fun ws => (inject_Z (snd ws) * (fst ws / total))%Q) act).

(** The integer nearest to [q] (a tie goes up). *)
Definition roundNearest (q : Q) : Z := Qfloor (q + (1 # 2)).

Definition confidence (ks fs cs : Z) : Z :=
  match active ks fs cs with
  | [] => 0
  | _ => roundNearest (weightedSum ks fs cs)
  end.

(** [n] is within less than one half of [q]: the nearest integer, and not
    by a tie. *)
Definition strictlyNearest (q : Q) (n : Z) : Prop :=
  (Qabs (q - inject_Z n) < 1 # 2)%Q.

Definition strictlyNearestb (q : Q) (n : Z) : bool :=
  negb (Qle_bool (1 # 2) (Qabs (q - inject_Z n))).

End Spec.

(** Every category name listed in [skillPatterns] is a key of
    [SEMANTIC_PATTERNS], so the lookup inside the loop finds a pattern. *)
Definition knownCategory (patternName : string) : bool :=
  match ownProperty SEMANTIC_PATTERNS patternName with
  | Some _ => true
  | None => false
  end.

(** The two arrays after the three pushes, as a function of the three
    sub-scores. *)
Definition activeSignals (ks fs cs : Z) : list float * list Z :=
  pushIfActive WEIGHTS.content cs
    (pushIfActive WEIGHTS.files fs
       (pushIfActive WEIGHTS.keywords ks ([], []))).

(** The confidence as a function of the three sub-scores. *)
Definition combined (ks fs cs : Z) : float :=
  let (activeWeights, activeScores) := activeSignals ks fs cs in
  if Nat.eqb (length activeWeights) 0 then zero
  else weightedAverage activeWeights activeScores.

(** No sub-score is strictly positive. *)
Definition noneActive (ks fs cs : Z) : bool :=
  negb (0 <? ks) && negb (0 <? fs) && negb (0 <? cs).

(** The values a sub-score can take. *)
Definition keywordScores : list Z := [0; 70; 75; 80; 85; 90; 95; 100].
Definition fileScores : list Z := [0; 80; 90; 100].
Definition contentScores : list Z := [0; 70; 80; 90; 100].

(** A stand-in for [minimatch] in the concrete examples, which only use
    patterns without glob metacharacters and paths whose segments are
    separated by single slashes, with no empty, [.] or [..] segment: there
    a pattern matches exactly the path equal to it.  (Elsewhere [minimatch]
    matches more, [a//b.ts] against [a/b.ts] for one.) *)
Definition literalGlob (file pattern : string) : bool := String.eqb file pattern.

(** A catalog entry and a request used in the concrete examples. *)
Definition convexSkill : DiscoveredSkill :=
  mkSkill "convex-patterns" "Convex backend patterns and type safety"
          ["convex"; "mutation"; "query"] ["convex/schema.ts"]
          "skills/convex-patterns" "skills/convex-patterns/SKILL.md".

Definition schemaOpen : option Context :=
  Some (mkContext (Some ["README.md"; "convex/schema.ts"]) None).

(** Signal [s] is the only active one of three. *)
Definition onlyActive (s other1 other2 : Z) : Prop :=
  0 < s /\ other1 <= 0 /\ other2 <= 0.

(** The reason codes [validatePath] can fail with, in step order. *)
Definition validatePathReasons : list string :=
  [ "allowed_dir_not_found"; "outside_allowed_directory"; "path_not_found";
    "path_resolution_failed"; "symlink_outside_project"; "path_traversal_detected" ].

(** A project at [/repo] whose [.claude] directory holds a plain directory,
    a file with two dots in its name, a symlink into the project, and two
    symlinks that leave the project. *)
Definition repoFs : Posix.FileSystem :=
  Posix.mkFileSystem "/repo"
    [ ("/repo/.claude", "/repo/.claude");
      ("/repo/.claude/skills", "/repo/.claude/skills");
      ("/repo/.claude/notes..md", "/repo/.claude/notes..md");
      ("/repo/.claude/shared", "/repo/docs/shared");
      ("/repo/.claude/hosts", "/etc/hosts");
      ("/repo/.claude/old..passwd", "/etc/passwd") ].

(** A file system where the allowed directory is the root itself. *)
Definition rootFs : Posix.FileSystem :=
  Posix.mkFileSystem "/" [ ("/", "/"); ("/etc", "/etc") ].

(** ** security.ts: type checks *)

(** What [statSync] reports of a path: the type of the file it names (a
    [Stats] object answers [isFile()] and [isDirectory()] from it). *)
Inductive Stats : Type :=
| RegularFile
| Directory
| OtherFile.     (* device, FIFO, socket *)

Definition isDirectory (stats : Stats) : bool :=
  match stats with
  | Directory => true
  | _ => false
  end.

Definition isFile (stats : Stats) : bool :=
  match stats with
  | RegularFile => true
  | _ => false
  end.

Section TypeChecks.

(** [statSync] of [node:fs]; [None] where it throws. *)
Variable statSync : string -> option Stats.

Definition validateIsDirectory (path : string) : Result unit SecurityError :=
  match statSync path with
  | Some stats =>
      if negb (isDirectory stats) then
        err (mkSecurityError ("Path is not a directory: " ++ path) path "not_a_directory")
      else ok tt
  | None => err (mkSecurityError ("Cannot stat path: " ++ path) path "stat_failed")
  end.

Definition validateIsFile (path : string) : Result unit SecurityError :=
  match statSync path with
  | Some stats =>
      if negb (isFile stats) then
        err (mkSecurityError ("Path is not a file: " ++ path) path "not_a_file")
      else ok tt
  | None => err (mkSecurityError ("Cannot stat path: " ++ path) path "stat_failed")
  end.

End TypeChecks.

(** ** security.ts: log sanitising *)

(** The fragment of regular expressions that [sanitizeErrorForLogging]
    uses, with the [g] flag and without [i]: literal characters, greedy
    repetition of a character class, sequencing and [\b].  Characters are
    the code units below 256. *)

Module Redact.

Inductive pattern : Type :=
| Lit (c : ascii)                                         (* a literal character *)
| Rep (cls : ascii -> bool) (min : nat) (max : option nat) (* [cls]{min,max}, greedy *)
| Cat (p q : pattern)
| Boundary.                                               (* [\b] *)

Definition code (c : ascii) : nat := nat_of_ascii c.

Definition between (lo hi : nat) (c : ascii) : bool :=
  andb (Nat.leb lo (code c)) (Nat.leb (code c) hi).

Definition isDigit (c : ascii) : bool := between 48 57 c.
Definition isUpper (c : ascii) : bool := between 65 90 c.
Definition isLower (c : ascii) : bool := between 97 122 c.
Definition isAlnum (c : ascii) : bool := isUpper c || isLower c || isDigit c.

(** [\s]: tab, line feed, vertical tab, form feed, carriage return, space
    and no-break space. *)
Definition isSpace (c : ascii) : bool :=
  between 9 13 c || Nat.eqb (code c) 32 || Nat.eqb (code c) 160.

(** [[^\s]] *)
Definition notSpace (c : ascii) : bool := negb (isSpace c).

(** [[A-Za-z0-9._%+-]] *)
Definition localChar (c : ascii) : bool :=
  isAlnum c || existsb (Ascii.eqb c) ["."; "_"; "%"; "+"; "-"]%char.

(** [[A-Za-z0-9.-]] *)
Definition domainChar (c : ascii) : bool :=
  isAlnum c || existsb (Ascii.eqb c) ["."; "-"]%char.

(** [[A-Z|a-z]]: the letters and the bar itself. *)
Definition tldChar (c : ascii) : bool :=
  isUpper c || isLower c || Ascii.eqb c "|"%char.

Definition withinMax (count : nat) (max : option nat) : bool :=
  match max with
  | Some m => Nat.ltb count m
  | None => true
  end.

(** Greedy repetition of a character class: take as many characters as
    allowed, and give back one at a time while the continuation [k] fails.
    [count] is the number of repetitions taken so far. *)
Fixpoint repK (cls : ascii -> bool) (min : nat) (max : option nat)
         (k : option ascii -> string -> nat -> option nat)
         (count : nat) (prev : option ascii) (s : string) (n : nat) : option nat :=
  let stop := if Nat.leb min count then k prev s n else None in
  match s with
  | String a s' =>
      if andb (cls a) (withinMax count max) then
        match repK cls min max k (S count) (Some a) s' (S n) with
        | Some r => Some r
        | None => stop
        end
      else stop
  | EmptyString => stop
  end.

(** Backtracking matcher.  [prev] is the character before the current
    position, [s] the rest of the input, [n] the number of characters
    matched so far, and [k] the continuation; the result is the length of
    the first match in backtracking order. *)
Fixpoint matchK (p : pattern) (prev : option ascii) (s : string) (n : nat)
         (k : option ascii -> string -> nat -> option nat) : option nat :=
  match p with
  | Lit c =>
      match s with
      | String a s' => if Ascii.eqb a c then k (Some a) s' (S n) else None
      | EmptyString => None
      end
  | Rep cls min max => repK cls min max k O prev s n
  | Cat p q => matchK p prev s n (fun prev' s' n' => matchK q prev' s' n' k)
  | Boundary =>
      if xorb (isWordAt prev) (isWordAt (head s)) then k prev s n else None
  end.

(** The length of the match of [p] that starts here, if there is one. *)
Definition matchLen (p : pattern) (prev : option ascii) (s : string) : option nat :=
  matchK p prev s O (fun _ _ n => Some n).

(** [s.replace(/p/g, replacement)] from the current position on; [skip]
    counts the characters of the input still covered by the last match.
    After an empty match the next character is copied, as [lastIndex]
    advances by one. *)
Fixpoint replaceFrom (p : pattern) (replacement : string) (prev : option ascii)
         (s : string) (skip : nat) : string :=
  match s with
  | EmptyString =>
      match matchLen p prev EmptyString with
      | Some _ => replacement
      | None => EmptyString
      end
  | String a s' =>
      match skip with
      | S skip' => replaceFrom p replacement (Some a) s' skip'
      | O =>
          match matchLen p prev s with
          | Some (S len) => replacement ++ replaceFrom p replacement (Some a) s' len
          | Some O => replacement ++ String a (replaceFrom p replacement (Some a) s' O)
          | None => String a (replaceFrom p replacement (Some a) s' O)
          end
      end
  end.

Definition replaceAll (p : pattern) (replacement s : string) : string :=
  replaceFrom p replacement None s O.

Definition one (cls : ascii -> bool) : pattern := Rep cls 1 (Some 1%nat).
Definition oneOrMore (cls : ascii -> bool) : pattern := Rep cls 1 None.
Definition atLeast (n : nat) (cls : ascii -> bool) : pattern := Rep cls n None.
Definition exactly (n : nat) (cls : ascii -> bool) : pattern := Rep cls n (Some n).

(** [/\/[^\s]+/] *)
Definition absolutePath : pattern := Cat (Lit "/") (oneOrMore notSpace).

(** [/\b[A-Za-z0-9._%+-]+@[A-Za-z0-9.-]+\.[A-Z|a-z]{2,}\b/] *)
Definition email : pattern :=
  Cat Boundary
      (Cat (oneOrMore localChar)
           (Cat (Lit "@")
                (Cat (oneOrMore domainChar)
                     (Cat (Lit ".") (Cat (atLeast 2 tldChar) Boundary))))).

(** [/\b\d{3}-\d{2}-\d{4}\b/] *)
Definition ssn : pattern :=
  Cat Boundary
      (Cat (exactly 3 isDigit)
           (Cat (Lit "-")
                (Cat (exactly 2 isDigit)
                     (Cat (Lit "-") (Cat (exactly 4 isDigit) Boundary))))).

(** Every character of [s] satisfies [f]. *)
Fixpoint allChars (f : ascii -> bool) (s : string) : bool :=
  match s with
  | EmptyString => true
  | String c s' => f c && allChars f s'
  end.

Definition notSlash (c : ascii) : bool := negb (Ascii.eqb c "/").

(** No slash of [s] is followed by a character other than white space. *)
Fixpoint pathFree (s : string) : bool :=
  match s with
  | EmptyString => true
  | String c s' =>
      (if Ascii.eqb c "/" then
         match s' with
         | EmptyString => true
         | String b _ => isSpace b
         end
       else true)
      && pathFree s'
  end.

(** An absolute path of at least two characters without white space. *)
Definition plainAbsolute (path : string) : bool :=
  match path with
  | String c (String b rest) => Ascii.eqb c "/" && allChars notSpace (String b rest)
  | _ => false
  end.

(** Neither a slash, nor an at sign, nor a digit. *)
Definition harmless (c : ascii) : bool :=
  notSlash c && negb (Ascii.eqb c "@") && negb (isDigit c).

(** A pattern is tame when its matches are never empty and never start at
    white space. *)
Definition tame (p : pattern) : Prop :=
  forall prev s len,
    matchLen p prev s = Some len ->
    (1 <= len)%nat /\ exists b rest, s = String b rest /\ isSpace b = false.

End Redact.

(** [sanitizeErrorForLogging(error)], as a function of [error.message],
    the only field it reads. *)
Definition sanitizeErrorForLogging (errorMessage : string) : string :=
  let message := errorMessage in
  let message := Redact.replaceAll Redact.absolutePath "[PATH]" message in
  let message := Redact.replaceAll Redact.email "[EMAIL]" message in
  let message := Redact.replaceAll Redact.ssn "[SSN]" message in
  message.

(** ** Vocabulary of the further properties *)

(** Some character of [s] is an ASCII capital. *)
Fixpoint hasUpper (s : string) : bool :=
  match s with
  | EmptyString => false
  | String c s' => Redact.isUpper c || hasUpper s'
  end.

(** The same skill with another keyword list. *)
Definition withKeywords (skill : DiscoveredSkill) (kws : list string) : DiscoveredSkill :=
  mkSkill (name skill) (description skill) kws (filePatterns skill)
          (skillPath skill) (skillMdPath skill).

(** The strictly positive sub-scores recorded in the details. *)
Definition activeScoresOf (d : MatchDetails) : list Z :=
  filter (Z.ltb 0) [keywordScore d; fileScore d; contentScore d].

(** The category's pattern tests true on the (lowercased) prompt. *)
Definition categoryMatches (normalizedPrompt patternName : string) : bool :=
  match ownProperty SEMANTIC_PATTERNS patternName with
  | Some r => test r normalizedPrompt
  | None => false
  end.

(** The common shape of a sub-result. *)
Definition subResult (base bonus : Z) (m : list string) : ScoreResult :=
  if len m =? 0 then mkScoreResult 0 []
  else mkScoreResult (Z.min 100 (base + (len m - 1) * bonus)) m.

(** The reachable triples of sub-scores. *)
Definition reachable : list (Z * Z * Z) :=
  flat_map (fun ks => flat_map (fun fs => map (fun cs => (ks, fs, cs)) contentScores)
                               fileScores)
           keywordScores.

(** Two triples have the same active signals, and the second is at least
    the first in every component. *)
Definition sameSignalsLe (t t' : Z * Z * Z) : bool :=
  let '(ks, fs, cs) := t in
  let '(ks', fs', cs') := t' in
  Bool.eqb (0 <? ks) (0 <? ks') && Bool.eqb (0 <? fs) (0 <? fs')
  && Bool.eqb (0 <? cs) (0 <? cs')
  && (ks <=? ks') && (fs <=? fs') && (cs <=? cs').

Definition combinedOf (t : Z * Z * Z) : float :=
  let '(ks, fs, cs) := t in combined ks fs cs.

(** A [statSync] for the concrete examples: what [repoFs] holds. *)
Definition repoStat (path : string) : option Stats :=
  if String.eqb path "/repo/.claude/skills" then Some Directory
  else if String.eqb path "/repo/.claude/notes..md" then Some RegularFile
  else if String.eqb path "/dev/null" then Some OtherFile
  else None.

(** What [sanitizeErrorForLogging] leaves of the six messages of
    [validatePath] when the paths in them are plain absolute paths. *)
Definition sanitizedValidationMessages : list string :=
  [ "Allowed directory does not exist: [PATH]";
    "Access denied: Path is outside allowed directory (.claude[PATH]";
    "Path does not exist: [PATH]";
    "Cannot resolve path: [PATH]";
    "Access denied: Symlink points outside project directory";
    "Path traversal detected: [PATH]" ].



(** * Proofs *)

(** ** Strings *)

Lemma prefix_app (p s : string) :
  String.prefix p s = true <-> exists post, s = p ++ post.
Proof.
  revert s; induction p as [|c p IH]; intros s.
  - split; [intros _; exists s; reflexivity | intros _; destruct s; reflexivity].
  - destruct s as [|a s]; simpl.
    + split; [discriminate | intros [post H]; discriminate].
    + destruct (ascii_dec c a) as [->|Hne].
      * rewrite IH. split; intros [post H]; exists post; congruence.
      * split; [discriminate | intros [post H]; congruence].
Qed.

Lemma includes_nil (sub : string) :
  includes EmptyString sub = String.prefix sub EmptyString || false.
Proof. reflexivity. Qed.

Lemma includes_cons (a : ascii) (s sub : string) :
  includes (String a s) sub = String.prefix sub (String a s) || includes s sub.
Proof. reflexivity. Qed.

(** [includes] is the substring test. *)
Lemma includes_Substring (s sub : string) :
  includes s sub = true <-> Substring sub s.
Proof.
  unfold Substring. induction s as [|a s IH].
  - rewrite includes_nil, orb_false_r, prefix_app. split.
    + intros [post H]. exists EmptyString, post. exact H.
    + intros [pre [post H]]. destruct pre; simpl in H.
      * exists post; exact H.
      * discriminate.
  - rewrite includes_cons, orb_true_iff, prefix_app, IH. split.
    + intros [[post H] | [pre [post H]]].
      * exists EmptyString, post. exact H.
      * exists (String a pre), post. simpl. congruence.
    + intros [pre [post H]]. destruct pre as [|b pre]; simpl in H.
      * left. exists post. exact H.
      * right. exists pre, post. congruence.
Qed.

(** ** Score arithmetic shared by the three sub-scorers *)

Lemma len_nil_iff (l : list string) : (len l =? 0) = true <-> l = [].
Proof.
  unfold len. rewrite Z.eqb_eq. destruct l; simpl; split; intros H;
    try reflexivity; try discriminate; lia.
Qed.

Lemma len_pos (l : list string) : l <> [] -> 1 <= len l.
Proof. unfold len. destruct l; simpl; [congruence | lia]. Qed.

(** ** Keyword score *)

Lemma keywordLoop_filter (p : string) (keywords acc : list string) :
  keywordLoop p keywords acc = (acc ++ filter (fun k => includes p k) keywords)%list.
Proof.
  revert acc; induction keywords as [|k ks IH]; intros acc; simpl.
  - now rewrite app_nil_r.
  - destruct (includes p k); rewrite IH; [now rewrite <- app_assoc | reflexivity].
Qed.

Lemma calculateKeywordScore_eq (prompt : string) (keywords : list string) :
  calculateKeywordScore prompt keywords
  = let m := Spec.matchedKeywords prompt keywords in
    if len m =? 0 then mkScoreResult 0 []
    else mkScoreResult (Z.min 100 (70 + (len m - 1) * 5)) m.
Proof.
  unfold calculateKeywordScore, Spec.matchedKeywords.
  rewrite keywordLoop_filter. reflexivity.
Qed.

Lemma nodup_NoDup_id (l : list string) : NoDup l -> nodup string_dec l = l.
Proof. apply nodup_fixed_point. Qed.

(** C2 (as amended): the matched keywords are the entries of the keyword
    list that occur as a substring of the lowercased prompt, in catalog
    order; the score is 0 when there is none, and otherwise 70 plus 5 for
    each matched entry after the first, capped at 100.  An entry listed
    twice is counted twice; when the keyword list has no duplicates the
    count is the number of distinct matched keywords. *)
Theorem keyword_score_per_entry (prompt : string) (keywords : list string) :
  let r := calculateKeywordScore prompt keywords in
  let matched := Spec.matchedKeywords prompt keywords in
  matches r = matched
  /\ (forall k, In k matched <-> In k keywords /\ Substring k (toLowerCase prompt))
  /\ (matched = [] -> score r = 0)
  /\ (matched <> [] -> score r = Z.min 100 (70 + 5 * (len matched - 1)))
  /\ (NoDup keywords -> score r = Spec.keywordScoreDistinct prompt keywords).
Proof.
  intros r matched.
  assert (Hr : r = if len matched =? 0 then mkScoreResult 0 []
                   else mkScoreResult (Z.min 100 (70 + (len matched - 1) * 5)) matched)
    by apply calculateKeywordScore_eq.
  assert (Hm : matches r = matched).
  { rewrite Hr. destruct (len matched =? 0) eqn:E; [|reflexivity].
    apply len_nil_iff in E. now rewrite E. }
  assert (Hs : score r = if len matched =? 0 then 0
                         else Z.min 100 (70 + 5 * (len matched - 1))).
  { rewrite Hr. destruct (len matched =? 0); cbn [score]; [reflexivity|].
    now rewrite (Z.mul_comm 5). }
  clearbody r.
  split; [exact Hm|]. split; [|split; [|split]].
  - intros k. subst matched. unfold Spec.matchedKeywords.
    rewrite filter_In, includes_Substring. reflexivity.
  - intros E. rewrite Hs, E. reflexivity.
  - intros E. rewrite Hs. destruct (len matched =? 0) eqn:E0; [|reflexivity].
    apply len_nil_iff in E0. contradiction.
  - intros Hnd. rewrite Hs. unfold Spec.keywordScoreDistinct.
    fold matched. rewrite nodup_NoDup_id.
    + destruct matched; reflexivity.
    + subst matched. unfold Spec.matchedKeywords. now apply NoDup_filter.
Qed.

(** C2 (as stated) fails: with the keyword listed twice, the source counts
    two matches and scores 75, where one distinct keyword would score 70. *)
Lemma keyword_score_distinct_counterexample :
  ~ (forall prompt keywords,
       score (calculateKeywordScore prompt keywords)
       = Spec.keywordScoreDistinct prompt keywords).
Proof.
  intros H. specialize (H "an api" ["api"; "api"]).
  vm_compute in H. discriminate H.
Qed.

(** ** File score *)

Section FileScoreFacts.

Variable minimatch : string -> string -> bool.

(** The inner loop pushes [file] once when some pattern matches it, and
    nothing otherwise: the [break] stops at the first matching pattern. *)
Lemma patternLoop_once (file : string) (filePatterns acc : list string) :
  patternLoop minimatch file filePatterns acc
  = if existsb (minimatch file) filePatterns then (acc ++ [file])%list else acc.
Proof.
  induction filePatterns as [|p ps IH]; simpl; [reflexivity|].
  destruct (minimatch file p); simpl; [reflexivity | exact IH].
Qed.

Lemma fileLoop_filter (openFiles filePatterns acc : list string) :
  fileLoop minimatch openFiles filePatterns acc
  = (acc ++ Spec.matchedFiles minimatch openFiles filePatterns)%list.
Proof.
  unfold Spec.matchedFiles.
  revert acc; induction openFiles as [|f fs IH]; intros acc; simpl.
  - now rewrite app_nil_r.
  - rewrite IH, patternLoop_once.
    destruct (existsb (minimatch f) filePatterns);
      [now rewrite <- app_assoc | reflexivity].
Qed.

Lemma matchedFiles_no_patterns (openFiles : list string) :
  Spec.matchedFiles minimatch openFiles [] = [].
Proof.
  unfold Spec.matchedFiles. induction openFiles; simpl; auto.
Qed.

Lemma calculateFileScore_eq (openFiles filePatterns : list string) :
  calculateFileScore minimatch openFiles filePatterns
  = let m := Spec.matchedFiles minimatch openFiles filePatterns in
    if len m =? 0 then mkScoreResult 0 []
    else mkScoreResult (Z.min 100 (80 + (len m - 1) * 10)) m.
Proof.
  unfold calculateFileScore. rewrite fileLoop_filter. cbv zeta.
  destruct (len filePatterns =? 0) eqn:Ep; simpl orb.
  - apply len_nil_iff in Ep. subst filePatterns.
    now rewrite matchedFiles_no_patterns.
  - destruct (len openFiles =? 0) eqn:Eo; [|reflexivity].
    apply len_nil_iff in Eo. subst openFiles. reflexivity.
Qed.

Lemma count_occ_filter_le (f : string -> bool) (l : list string) (x : string) :
  (count_occ string_dec (filter f l) x <= count_occ string_dec l x)%nat.
Proof.
  induction l as [|a l IH]; simpl; [lia|].
  destruct (f a); simpl; destruct (string_dec a x); lia.
Qed.

End FileScoreFacts.

(** C5: with an empty pattern list or an empty open-file list the file
    score is 0 with no matches.  In general the matched files are the open
    files that some pattern matches, in input order, each entry of the
    open-file list contributing at most once however many patterns match
    it; the score is 0 when there is none and otherwise 80 plus 10 per
    matched file after the first, capped at 100. *)
Theorem file_score_spec (minimatch : string -> string -> bool)
        (openFiles filePatterns : list string) :
  let r := calculateFileScore minimatch openFiles filePatterns in
  let matched := Spec.matchedFiles minimatch openFiles filePatterns in
  (openFiles = [] \/ filePatterns = [] -> r = mkScoreResult 0 [])
  /\ matches r = matched
  /\ (forall f, In f matched <->
                In f openFiles /\ exists p, In p filePatterns /\ minimatch f p = true)
  /\ (forall f, (count_occ string_dec matched f <= count_occ string_dec openFiles f)%nat)
  /\ (matched = [] -> score r = 0)
  /\ (matched <> [] -> score r = Z.min 100 (80 + 10 * (len matched - 1))).
Proof.
  intros r matched.
  assert (Hr : r = if len matched =? 0 then mkScoreResult 0 []
                   else mkScoreResult (Z.min 100 (80 + (len matched - 1) * 10)) matched)
    by apply calculateFileScore_eq.
  clearbody r. repeat split.
  - intros [-> | ->]; unfold calculateFileScore in *; subst r; subst matched.
    + reflexivity.
    + now rewrite matchedFiles_no_patterns.
  - rewrite Hr. destruct (len matched =? 0) eqn:E; [|reflexivity].
    apply len_nil_iff in E. now rewrite E.
  - subst matched. unfold Spec.matchedFiles in H. now apply filter_In in H.
  - subst matched. unfold Spec.matchedFiles in H. apply filter_In in H.
    destruct H as [_ H]. apply existsb_exists in H. exact H.
  - intros [Hin Hex]. subst matched. unfold Spec.matchedFiles.
    apply filter_In. split; [exact Hin|]. apply existsb_exists. exact Hex.
  - intros f. apply count_occ_filter_le.
  - intros E. rewrite Hr, E. reflexivity.
  - intros E. rewrite Hr. destruct (len matched =? 0) eqn:E0.
    + apply len_nil_iff in E0. contradiction.
    + cbn [score]. now rewrite (Z.mul_comm 10).
Qed.

(** ** Content score *)

Lemma contentLoop_returns (p : string) (relevantPatterns acc : list string) :
  forallb knownCategory relevantPatterns = true ->
  exists m, contentLoop p relevantPatterns acc = Returns m
            /\ (length m <= length acc + length relevantPatterns)%nat
            /\ (relevantPatterns = [] -> m = acc).
Proof.
  revert acc; induction relevantPatterns as [|n ns IH]; intros acc H; simpl in *.
  - exists acc. repeat split; auto; lia.
  - apply andb_true_iff in H. destruct H as [Hn Hns].
    unfold knownCategory, getProperty in *.
    destruct (ownProperty SEMANTIC_PATTERNS n) as [r|]; [|discriminate].
    simpl. destruct (test r p).
    + destruct (IH (acc ++ [n])%list Hns) as [m [Hm [Hl _]]].
      exists m. rewrite length_app in Hl. simpl in Hl.
      repeat split; [exact Hm | lia | discriminate].
    + destruct (IH acc Hns) as [m [Hm [Hl _]]].
      exists m. repeat split; [exact Hm | lia | discriminate].
Qed.

Lemma skillPatterns_known :
  forallb (fun kv => forallb knownCategory (snd kv)) skillPatterns = true.
Proof. vm_compute. reflexivity. Qed.

Lemma ownProperty_In {A : Type} (obj : list (string * A)) (key : string) (v : A) :
  ownProperty obj key = Some v -> In (key, v) obj.
Proof.
  induction obj as [|[k w] rest IH]; simpl; [discriminate|].
  destruct (String.eqb_spec k key) as [->|_].
  - intros [= ->]. now left.
  - intros H. right. auto.
Qed.

(** A skill name outside the table and outside [Object.prototype] scores 0
    on content, with no match. *)
Lemma content_score_unlisted (prompt skillName : string) :
  ownProperty skillPatterns skillName = None ->
  existsb (String.eqb skillName) Object_prototype = false ->
  calculateContentScore prompt skillName = Returns (mkScoreResult 0 []).
Proof.
  intros Hown Hproto. unfold calculateContentScore, getProperty.
  rewrite Hown, Hproto. reflexivity.
Qed.

(** The content scorer returns whenever the skill name is not a member of
    [Object.prototype], with a score among 0, 70, 80, 90 and 100. *)
Lemma content_score_returns (prompt skillName : string) :
  existsb (String.eqb skillName) Object_prototype = false ->
  exists r, calculateContentScore prompt skillName = Returns r
            /\ In (score r) [0; 70; 80; 90; 100].
Proof.
  intros Hproto. destruct (ownProperty skillPatterns skillName) as [arr|] eqn:Hown.
  - pose proof (ownProperty_In _ _ _ Hown) as Hin.
    pose proof skillPatterns_known as Hk. rewrite forallb_forall in Hk.
    specialize (Hk _ Hin). simpl in Hk.
    destruct (contentLoop_returns (toLowerCase prompt) arr [] Hk) as [m [Hm [Hl _]]].
    assert (Harr : (length arr <= 4)%nat).
    { simpl in Hin. repeat (destruct Hin as [Hin|Hin]; [inversion Hin; simpl; lia|]).
      contradiction. }
    unfold calculateContentScore, getProperty. rewrite Hown. simpl nullish.
    unfold forOfContent. rewrite Hm. simpl bind. cbv zeta.
    destruct (len m =? 0) eqn:E.
    + eexists; split; [reflexivity|]. simpl. auto.
    + eexists; split; [reflexivity|]. cbn [score].
      apply Z.eqb_neq in E. unfold len in *. simpl in Hl.
      assert (Hc : Z.of_nat (length m) = 1 \/ Z.of_nat (length m) = 2
                   \/ Z.of_nat (length m) = 3 \/ Z.of_nat (length m) = 4) by lia.
      destruct Hc as [-> | [-> | [-> | ->]]]; simpl; auto 6.
  - exists (mkScoreResult 0 []). split; [|simpl; auto].
    now apply content_score_unlisted.
Qed.

(** C6 (the source departs from it): ["constructor"] is not a key of the
    skill-to-category table, yet the content scorer does not return score 0
    for a skill of that name: the lookup finds the member that every object
    literal inherits, [?? []] leaves it in place, and the [for ... of] over
    it throws. *)
Theorem content_score_inherited_name_throws (prompt : string) :
  ownProperty skillPatterns "constructor" = None
  /\ calculateContentScore prompt "constructor"
     = Throws (TypeError "relevantPatterns is not iterable")
  /\ calculateContentScore prompt "constructor" <> Returns (mkScoreResult 0 []).
Proof.
  repeat split. discriminate.
Qed.

(** ** Combination *)

Lemma keyword_score_domain (prompt : string) (keywords : list string) :
  In (score (calculateKeywordScore prompt keywords)) keywordScores.
Proof.
  rewrite calculateKeywordScore_eq. cbv zeta.
  destruct (len _ =? 0) eqn:E; cbn [score]; [simpl; auto|].
  apply Z.eqb_neq in E. set (n := len _) in *.
  assert (Hn : 0 <= n) by (subst n; unfold len; lia). clearbody n.
  assert (Hc : n = 1 \/ n = 2 \/ n = 3 \/ n = 4 \/ n = 5 \/ n = 6 \/ 7 <= n) by lia.
  destruct Hc as [-> | [-> | [-> | [-> | [-> | [-> | Hc]]]]]];
    try (simpl; auto 10; fail).
  rewrite Z.min_l by lia. simpl; auto 10.
Qed.

Lemma file_score_domain (minimatch : string -> string -> bool)
      (openFiles filePatterns : list string) :
  In (score (calculateFileScore minimatch openFiles filePatterns)) fileScores.
Proof.
  rewrite calculateFileScore_eq. cbv zeta.
  destruct (len _ =? 0) eqn:E; cbn [score]; [simpl; auto|].
  apply Z.eqb_neq in E. set (n := len _) in *.
  assert (Hn : 0 <= n) by (subst n; unfold len; lia). clearbody n.
  assert (Hc : n = 1 \/ n = 2 \/ 3 <= n) by lia.
  destruct Hc as [-> | [-> | Hc]]; try (simpl; auto 10; fail).
  rewrite Z.min_l by lia. simpl; auto 10.
Qed.

Lemma listed_not_inherited (skillName : string) (arr : list string) :
  ownProperty skillPatterns skillName = Some arr ->
  existsb (String.eqb skillName) Object_prototype = false.
Proof.
  intros H. apply ownProperty_In in H. simpl in H.
  repeat (destruct H as [H|H]; [inversion H; reflexivity|]).
  contradiction.
Qed.

Lemma content_score_domain (prompt skillName : string) (r : ScoreResult) :
  calculateContentScore prompt skillName = Returns r ->
  In (score r) contentScores.
Proof.
  intros H. destruct (existsb (String.eqb skillName) Object_prototype) eqn:Hp.
  - exfalso. unfold calculateContentScore, getProperty in H.
    destruct (ownProperty skillPatterns skillName) eqn:Hown.
    + apply listed_not_inherited in Hown. congruence.
    + rewrite Hp in H. simpl in H. discriminate H.
  - destruct (content_score_returns prompt skillName Hp) as [r' [Hr' Hin]].
    rewrite H in Hr'. injection Hr' as <-. exact Hin.
Qed.

Ltac table_leaves :=
  repeat first [apply Forall_nil | apply Forall_cons].

(** On every reachable triple of sub-scores, the binary64 computation of
    the source gives exactly the integer that the specification describes,
    and that integer lies between 0 and 100. *)
Lemma combined_table :
  Forall (fun ks => Forall (fun fs => Forall (fun cs =>
    combined ks fs cs = Z2F (Spec.confidence ks fs cs)
    /\ (0 <=? Spec.confidence ks fs cs) && (Spec.confidence ks fs cs <=? 100) = true)
    contentScores) fileScores) keywordScores.
Proof.
  table_leaves; split; vm_compute; reflexivity.
Qed.

(** On every reachable triple with an active signal the weighted sum is
    never half-way between two integers, so the rounding does not depend on
    how ties are broken. *)
Lemma weighted_sum_no_tie_table :
  Forall (fun ks => Forall (fun fs => Forall (fun cs =>
    noneActive ks fs cs
    || Spec.strictlyNearestb (Spec.weightedSum ks fs cs) (Spec.confidence ks fs cs)
    = true)
    contentScores) fileScores) keywordScores.
Proof.
  table_leaves; vm_compute; reflexivity.
Qed.

Lemma strictlyNearestb_sound (q : Q) (n : Z) :
  Spec.strictlyNearestb q n = true -> Spec.strictlyNearest q n.
Proof.
  unfold Spec.strictlyNearestb, Spec.strictlyNearest. intros H.
  apply negb_true_iff in H. apply Qnot_le_lt. intros Hle.
  apply Qle_bool_iff in Hle. congruence.
Qed.

Lemma weighted_sum_no_tie (ks fs cs : Z) :
  In ks keywordScores -> In fs fileScores -> In cs contentScores ->
  noneActive ks fs cs = false ->
  Spec.strictlyNearest (Spec.weightedSum ks fs cs) (Spec.confidence ks fs cs).
Proof.
  intros Hk Hf Hc Hn. pose proof weighted_sum_no_tie_table as T.
  rewrite Forall_forall in T. specialize (T _ Hk).
  rewrite Forall_forall in T. specialize (T _ Hf).
  rewrite Forall_forall in T. specialize (T _ Hc).
  rewrite Hn in T. apply strictlyNearestb_sound. exact T.
Qed.

Lemma combined_spec (ks fs cs : Z) :
  In ks keywordScores -> In fs fileScores -> In cs contentScores ->
  combined ks fs cs = Z2F (Spec.confidence ks fs cs)
  /\ 0 <= Spec.confidence ks fs cs <= 100.
Proof.
  intros Hk Hf Hc. pose proof combined_table as T.
  rewrite Forall_forall in T. specialize (T _ Hk).
  rewrite Forall_forall in T. specialize (T _ Hf).
  rewrite Forall_forall in T. specialize (T _ Hc).
  destruct T as [T1 T2]. split; [exact T1|].
  apply andb_true_iff in T2. destruct T2 as [A B].
  apply Z.leb_le in A. apply Z.leb_le in B. lia.
Qed.

(** With a single active signal the normalised weight is exactly 1 and the
    result is the raw score. *)
Lemma combined_single_table :
  Forall (fun ks => combined ks 0 0 = Z2F ks) keywordScores
  /\ Forall (fun fs => combined 0 fs 0 = Z2F fs) fileScores
  /\ Forall (fun cs => combined 0 0 cs = Z2F cs) contentScores.
Proof.
  repeat split; table_leaves; vm_compute; reflexivity.
Qed.

Lemma In_nonneg (x : Z) (l : list Z) :
  forallb (fun y => 0 <=? y) l = true -> In x l -> 0 <= x.
Proof.
  intros H Hin. rewrite forallb_forall in H. apply Z.leb_le. auto.
Qed.

Lemma noneActive_length (ks fs cs : Z) :
  Nat.eqb (length (fst (activeSignals ks fs cs))) 0 = noneActive ks fs cs.
Proof.
  unfold activeSignals, noneActive, pushIfActive.
  destruct (0 <? ks), (0 <? fs), (0 <? cs); reflexivity.
Qed.

(** [calculateConfidence] in terms of [combined], once the content scorer
    has returned. *)
Lemma calculateConfidence_eq (minimatch : string -> string -> bool)
      (prompt : string) (skill : DiscoveredSkill) (context : option Context)
      (contentResult : ScoreResult) :
  calculateContentScore prompt (name skill) = Returns contentResult ->
  let keywordResult := calculateKeywordScore prompt (keywords skill) in
  let fileResult :=
    calculateFileScore minimatch (openFilesOf context) (filePatterns skill) in
  calculateConfidence minimatch prompt skill context
  = Returns
      (if noneActive (score keywordResult) (score fileResult) (score contentResult)
       then mkConfidence zero (mkDetails [] [] [] 0 0 0)
       else mkConfidence
              (combined (score keywordResult) (score fileResult) (score contentResult))
              (mkDetails (matches keywordResult) (matches fileResult)
                         (matches contentResult)
                         (score keywordResult) (score fileResult)
                         (score contentResult))).
Proof.
  intros H keywordResult fileResult. unfold calculateConfidence.
  rewrite H. cbn [bind]. fold keywordResult fileResult.
  set (ks := score keywordResult). set (fs := score fileResult).
  set (cs := score contentResult).
  rewrite <- noneActive_length. unfold combined.
  change (pushIfActive WEIGHTS.content cs
            (pushIfActive WEIGHTS.files fs
               (pushIfActive WEIGHTS.keywords ks ([], []))))
    with (activeSignals ks fs cs).
  destruct (activeSignals ks fs cs) as [aw asc]. cbn [fst].
  destruct (Nat.eqb (length aw) 0); reflexivity.
Qed.

Lemma noneActive_zero (ks fs cs : Z) :
  0 <= ks -> 0 <= fs -> 0 <= cs ->
  (noneActive ks fs cs = true <-> ks = 0 /\ fs = 0 /\ cs = 0).
Proof.
  intros. unfold noneActive.
  rewrite !andb_true_iff, !negb_true_iff, !Z.ltb_ge. lia.
Qed.

(** The sub-scores of a call, once the content scorer has returned, are
    reachable values. *)
Lemma scores_reachable (minimatch : string -> string -> bool)
      (prompt : string) (skill : DiscoveredSkill) (context : option Context)
      (contentResult : ScoreResult) :
  calculateContentScore prompt (name skill) = Returns contentResult ->
  In (score (calculateKeywordScore prompt (keywords skill))) keywordScores
  /\ In (score (calculateFileScore minimatch (openFilesOf context) (filePatterns skill)))
        fileScores
  /\ In (score contentResult) contentScores.
Proof.
  intros H. split; [apply keyword_score_domain|].
  split; [apply file_score_domain | exact (content_score_domain _ _ _ H)].
Qed.

(** A skill named after a member of [Object.prototype] makes the whole
    scorer throw. *)
Lemma calculateConfidence_throws (minimatch : string -> string -> bool)
      (prompt : string) (skill : DiscoveredSkill) (context : option Context) :
  existsb (String.eqb (name skill)) Object_prototype = true ->
  calculateConfidence minimatch prompt skill context
  = Throws (TypeError "relevantPatterns is not iterable").
Proof.
  intros Hp. unfold calculateConfidence, calculateContentScore, getProperty.
  destruct (ownProperty skillPatterns (name skill)) eqn:Hown.
  - apply listed_not_inherited in Hown. congruence.
  - rewrite Hp. reflexivity.
Qed.

(** C1: once the three sub-scores are there, [calculateConfidence] returns
    confidence 0 with all-empty match details when they are all 0;
    otherwise the confidence is the sum of the strictly positive
    sub-scores, each weighted by its weight (0.4, 0.3, 0.3) divided by the
    sum of the active weights, rounded to the nearest integer (which is
    never a tie). *)
Theorem confidence_weighted_sum (minimatch : string -> string -> bool)
        (prompt : string) (skill : DiscoveredSkill) (context : option Context)
        (contentResult : ScoreResult) :
  calculateContentScore prompt (name skill) = Returns contentResult ->
  let ks := score (calculateKeywordScore prompt (keywords skill)) in
  let fs := score (calculateFileScore minimatch (openFilesOf context)
                                      (filePatterns skill)) in
  let cs := score contentResult in
  (ks = 0 /\ fs = 0 /\ cs = 0 ->
   calculateConfidence minimatch prompt skill context
   = Returns (mkConfidence zero (mkDetails [] [] [] 0 0 0)))
  /\ (~ (ks = 0 /\ fs = 0 /\ cs = 0) ->
      exists r, calculateConfidence minimatch prompt skill context = Returns r
                /\ confidence r = Z2F (Spec.confidence ks fs cs)
                /\ Spec.strictlyNearest (Spec.weightedSum ks fs cs)
                                        (Spec.confidence ks fs cs)).
Proof.
  intros H ks fs cs.
  destruct (scores_reachable minimatch prompt skill context _ H) as [Hk [Hf Hc]].
  fold ks in Hk. fold fs in Hf. fold cs in Hc.
  pose proof (calculateConfidence_eq minimatch prompt skill context _ H) as E.
  cbv zeta in E. fold ks fs cs in E.
  assert (Hz : noneActive ks fs cs = true <-> ks = 0 /\ fs = 0 /\ cs = 0).
  { apply noneActive_zero; eapply In_nonneg; eauto; reflexivity. }
  split; intros Hcase.
  - apply Hz in Hcase. rewrite Hcase in E. exact E.
  - destruct (noneActive ks fs cs) eqn:Hn.
    + exfalso. apply Hcase, Hz. reflexivity.
    + eexists. split; [exact E|]. cbn [confidence]. split.
      * apply combined_spec; assumption.
      * apply weighted_sum_no_tie; assumption.
Qed.

Lemma confidence_weighted_sum_witness :
  exists r,
    calculateConfidence literalGlob "add a convex mutation for the webhook"
                        convexSkill schemaOpen = Returns r
    /\ confidence r = Z2F 78.
Proof.
  destruct (proj2 (confidence_weighted_sum literalGlob
                     "add a convex mutation for the webhook" convexSkill schemaOpen
                     (mkScoreResult 80 ["webhook/callback"; "database/schema"])
                     eq_refl)) as [r [Hr [Hc _]]].
  - vm_compute. intros [E _]. discriminate E.
  - exists r. split; [exact Hr | exact Hc].
Defined.

(** C7: when exactly one of the three signals has a strictly positive
    sub-score, the confidence returned is that sub-score. *)
Theorem single_active_signal (minimatch : string -> string -> bool)
        (prompt : string) (skill : DiscoveredSkill) (context : option Context)
        (contentResult : ScoreResult) :
  calculateContentScore prompt (name skill) = Returns contentResult ->
  let ks := score (calculateKeywordScore prompt (keywords skill)) in
  let fs := score (calculateFileScore minimatch (openFilesOf context)
                                      (filePatterns skill)) in
  let cs := score contentResult in
  exists r, calculateConfidence minimatch prompt skill context = Returns r
            /\ (onlyActive ks fs cs -> confidence r = Z2F ks)
            /\ (onlyActive fs ks cs -> confidence r = Z2F fs)
            /\ (onlyActive cs ks fs -> confidence r = Z2F cs).
Proof.
  intros H ks fs cs.
  destruct (scores_reachable minimatch prompt skill context _ H) as [Hk [Hf Hc]].
  fold ks in Hk. fold fs in Hf. fold cs in Hc.
  pose proof (calculateConfidence_eq minimatch prompt skill context _ H) as E.
  cbv zeta in E. fold ks fs cs in E.
  assert (Nk : 0 <= ks) by (eapply In_nonneg; eauto; reflexivity).
  assert (Nf : 0 <= fs) by (eapply In_nonneg; eauto; reflexivity).
  assert (Nc : 0 <= cs) by (eapply In_nonneg; eauto; reflexivity).
  destruct combined_single_table as [Tk [Tf Tc]].
  rewrite Forall_forall in Tk, Tf, Tc.
  eexists. split; [exact E|].
  unfold onlyActive. repeat split; intros [Hpos [H1 H2]].
  - assert (fs = 0) as E1 by lia. assert (cs = 0) as E2 by lia.
    assert (Hn : noneActive ks fs cs = false).
    { unfold noneActive. apply Z.ltb_lt in Hpos. now rewrite Hpos. }
    rewrite Hn. cbn [confidence]. rewrite E1, E2. auto.
  - assert (ks = 0) as E1 by lia. assert (cs = 0) as E2 by lia.
    assert (Hn : noneActive ks fs cs = false).
    { unfold noneActive. apply Z.ltb_lt in Hpos. rewrite Hpos.
      now rewrite andb_false_r. }
    rewrite Hn. cbn [confidence]. rewrite E1, E2. auto.
  - assert (ks = 0) as E1 by lia. assert (fs = 0) as E2 by lia.
    assert (Hn : noneActive ks fs cs = false).
    { unfold noneActive. apply Z.ltb_lt in Hpos. rewrite Hpos.
      now rewrite andb_false_r. }
    rewrite Hn. cbn [confidence]. rewrite E1, E2. auto.
Qed.

Lemma single_active_signal_witness :
  exists r,
    calculateConfidence literalGlob "create a webhook handler for stripe events"
                        convexSkill None = Returns r
    /\ confidence r = Z2F 70.
Proof.
  destruct (single_active_signal literalGlob
              "create a webhook handler for stripe events" convexSkill None
              (mkScoreResult 70 ["webhook/callback"]) eq_refl)
    as [r [Hr [_ [_ Hc]]]].
  exists r. split; [exact Hr|]. apply Hc. unfold onlyActive. simpl. lia.
Defined.

(** C8: whatever the prompt, the skill and the context, a confidence that
    [calculateConfidence] returns is an integer between 0 and 100; and it
    does return one for every skill whose name is not a member of
    [Object.prototype]. *)
Theorem confidence_in_range (minimatch : string -> string -> bool)
        (prompt : string) (skill : DiscoveredSkill) (context : option Context) :
  (forall r, calculateConfidence minimatch prompt skill context = Returns r ->
             exists n : Z, 0 <= n <= 100 /\ confidence r = Z2F n)
  /\ (existsb (String.eqb (name skill)) Object_prototype = false ->
      exists r, calculateConfidence minimatch prompt skill context = Returns r).
Proof.
  split.
  - intros r Hr.
    destruct (calculateContentScore prompt (name skill)) as [cr|e] eqn:H.
    + destruct (scores_reachable minimatch prompt skill context _ H) as [Hk [Hf Hc]].
      pose proof (calculateConfidence_eq minimatch prompt skill context _ H) as E.
      cbv zeta in E. rewrite E in Hr. injection Hr as <-.
      destruct (noneActive _ _ _).
      * exists 0. split; [lia | reflexivity].
      * destruct (combined_spec _ _ _ Hk Hf Hc) as [C B].
        eexists. split; [exact B | exact C].
    + unfold calculateConfidence in Hr. rewrite H in Hr. discriminate Hr.
  - intros Hp. destruct (content_score_returns prompt (name skill) Hp) as [cr [H _]].
    pose proof (calculateConfidence_eq minimatch prompt skill context _ H) as E.
    cbv zeta in E. eexists. exact E.
Qed.

(** ** Path validator *)

Lemma string_length_app (a b : string) :
  String.length (a ++ b) = (String.length a + String.length b)%nat.
Proof. induction a; simpl; congruence. Qed.

(** A string does not start with itself followed by one more character. *)
Lemma startsWith_longer (d : string) (c : ascii) :
  startsWith d (d ++ String c EmptyString) = false.
Proof.
  unfold startsWith. destruct (String.prefix _ d) eqn:E; [|reflexivity].
  apply prefix_app in E. destruct E as [post E].
  apply (f_equal String.length) in E.
  rewrite !string_length_app in E. simpl in E. lia.
Qed.

(** C3: a target whose normalized form contains [..] is never validated:
    [validatePath] fails, with [path_traversal_detected] or with the code of
    an earlier step. *)
Theorem dotdot_never_validates (P : Platform) (targetPath allowedDir : string) :
  includes (normalize P targetPath) ".." = true ->
  exists e, validatePath P targetPath allowedDir = err e
            /\ In (reason e) validatePathReasons.
Proof.
  intros H. unfold validatePath.
  destruct (realpathSync P allowedDir) as [rad|].
  2:{ eexists. split; [reflexivity|]. simpl. auto. }
  cbv zeta.
  destruct (startsWith _ (withSep P rad)); cbn [negb].
  2:{ eexists. split; [reflexivity|]. simpl. auto. }
  destruct (existsSync P _); cbn [negb].
  2:{ eexists. split; [reflexivity|]. simpl. auto. }
  destruct (realpathSync P _) as [rp|].
  2:{ eexists. split; [reflexivity|]. simpl. auto 6. }
  destruct (startsWith rp _); cbn [negb].
  2:{ eexists. split; [reflexivity|]. simpl. auto 6. }
  rewrite H. eexists. split; [reflexivity|]. simpl. auto 7.
Qed.

Lemma dotdot_never_validates_witness :
  exists e, validatePath (Posix.platform repoFs) "../../etc/passwd" "/repo/.claude" = err e
            /\ In (reason e) validatePathReasons.
Proof.
  exact (dotdot_never_validates (Posix.platform repoFs)
           "../../etc/passwd" "/repo/.claude" eq_refl).
Defined.












(** C9 (as amended): when the canonical allowed directory does not end with
    a separator, a target that resolves to the allowed directory itself
    fails with [outside_allowed_directory]. *)
Theorem allowed_dir_itself_rejected (P : Platform) (targetPath allowedDir : string)
        (resolvedAllowedDir : string) :
  realpathSync P allowedDir = Some resolvedAllowedDir ->
  endsWith resolvedAllowedDir (sep P) = false ->
  resolve P [normalize P targetPath] = resolvedAllowedDir ->
  exists e, validatePath P targetPath allowedDir = err e
            /\ reason e = "outside_allowed_directory".
Proof.
  intros Hdir Hsep Habs. unfold validatePath. rewrite Hdir. cbv zeta.
  rewrite Habs. unfold withSep at 1. rewrite Hsep, startsWith_longer.
  eexists. split; reflexivity.
Qed.

Lemma allowed_dir_itself_rejected_witness :
  exists e, validatePath (Posix.platform repoFs) ".claude/" "/repo/.claude" = err e
            /\ reason e = "outside_allowed_directory".
Proof.
  exact (allowed_dir_itself_rejected (Posix.platform repoFs)
           ".claude/" "/repo/.claude" "/repo/.claude" eq_refl eq_refl eq_refl).
Defined.

(** C9 (as stated) fails: the canonical path of the root directory ends
    with the separator, the prefix is then the root itself, and the root
    validates as a target. *)
Lemma allowed_dir_itself_counterexample :
  ~ (forall (P : Platform) (targetPath allowedDir resolvedAllowedDir : string),
       realpathSync P allowedDir = Some resolvedAllowedDir ->
       resolve P [normalize P targetPath] = resolvedAllowedDir ->
       exists e, validatePath P targetPath allowedDir = err e
                 /\ reason e = "outside_allowed_directory").
Proof.
  intros H.
  destruct (H (Posix.platform rootFs) "/" "/" "/" eq_refl eq_refl) as [e [He _]].
  vm_compute in He. discriminate He.
Qed.




(** ** Worked examples *)

Example keyword_two_matches :
  calculateKeywordScore "Add a Convex mutation" ["convex"; "mutation"; "query"]
  = mkScoreResult 75 ["convex"; "mutation"].
Proof. vm_compute. reflexivity. Qed.

Example keyword_inside_a_word :
  calculateKeywordScore "a rapid fix" ["api"] = mkScoreResult 70 ["api"].
Proof. vm_compute. reflexivity. Qed.

Example keyword_cap :
  score (calculateKeywordScore "abcdefgh" ["a"; "b"; "c"; "d"; "e"; "f"; "g"; "h"]) = 100.
Proof. vm_compute. reflexivity. Qed.

Example file_one_match :
  calculateFileScore literalGlob ["README.md"; "convex/schema.ts"]
                     ["src/index.ts"; "convex/schema.ts"]
  = mkScoreResult 80 ["convex/schema.ts"].
Proof. vm_compute. reflexivity. Qed.

Example content_webhook :
  calculateContentScore "create a webhook handler for stripe events" "convex-patterns"
  = Returns (mkScoreResult 70 ["webhook/callback"]).
Proof. vm_compute. reflexivity. Qed.

Example content_word_boundary :
  calculateContentScore "a rapid fix" "convex-patterns" = Returns (mkScoreResult 0 [])
  /\ calculateContentScore "call the API" "convex-patterns"
     = Returns (mkScoreResult 70 ["api/http"]).
Proof. split; vm_compute; reflexivity. Qed.

Example nothing_fires :
  calculateConfidence literalGlob "hello" convexSkill None
  = Returns (mkConfidence zero (mkDetails [] [] [] 0 0 0)).
Proof. vm_compute. reflexivity. Qed.

Example two_signals :
  exists r, calculateConfidence literalGlob "a convex mutation" convexSkill schemaOpen
            = Returns r
            /\ keywordScore (details r) = 75 /\ fileScore (details r) = 80
            /\ contentScore (details r) = 70
            /\ confidence r = Z2F 75.
Proof. eexists. repeat split; vm_compute; reflexivity. Qed.

Example traversal_scenario :
  exists e, validatePath (Posix.platform repoFs)
                         "/repo/.claude/../../etc/passwd" "/repo/.claude" = err e
            /\ reason e = "outside_allowed_directory".
Proof. eexists. split; vm_compute; reflexivity. Qed.

Example plain_directory_validates :
  validatePath (Posix.platform repoFs) ".claude/skills/" "/repo/.claude"
  = ok "/repo/.claude/skills".
Proof. vm_compute. reflexivity. Qed.


(** * Further properties *)

(** ** Keyword scorer *)

Lemma includes_empty (s : string) : includes s "" = true.
Proof. destruct s; reflexivity. Qed.

Lemma lower_ascii_not_upper (c : ascii) : Redact.isUpper (lower_ascii c) = false.
Proof. destruct c as [[] [] [] [] [] [] [] []]; reflexivity. Qed.

Lemma toLowerCase_no_upper (s : string) : hasUpper (toLowerCase s) = false.
Proof.
  induction s as [|c s IH]; simpl; [reflexivity|].
  now rewrite lower_ascii_not_upper, IH.
Qed.

Lemma hasUpper_app (a b : string) : hasUpper (a ++ b) = hasUpper a || hasUpper b.
Proof.
  induction a as [|c a IH]; simpl; [reflexivity|].
  now rewrite IH, orb_assoc.
Qed.

Lemma includes_hasUpper (s k : string) :
  hasUpper k = true -> hasUpper s = false -> includes s k = false.
Proof.
  intros Hk Hs. destruct (includes s k) eqn:E; [|reflexivity].
  apply includes_Substring in E. destruct E as [pre [post ->]].
  rewrite !hasUpper_app, Hk, orb_true_r in Hs. discriminate Hs.
Qed.

Lemma matchedKeywords_app (prompt : string) (a b : list string) :
  Spec.matchedKeywords prompt (a ++ b)
  = (Spec.matchedKeywords prompt a ++ Spec.matchedKeywords prompt b)%list.
Proof. unfold Spec.matchedKeywords. apply filter_app. Qed.

(** X1: the keywords are compared as written with the lowercased prompt,
    so a keyword that contains a capital letter never matches: removing it
    from the list changes nothing. *)
Theorem keyword_with_capital_never_matches (prompt keyword : string)
        (before after : list string) :
  hasUpper keyword = true ->
  calculateKeywordScore prompt (before ++ keyword :: after)
  = calculateKeywordScore prompt (before ++ after).
Proof.
  intros H. rewrite !calculateKeywordScore_eq. cbv zeta.
  rewrite !matchedKeywords_app.
  assert (E : Spec.matchedKeywords prompt (keyword :: after)
              = Spec.matchedKeywords prompt after).
  { unfold Spec.matchedKeywords. cbn [filter].
    now rewrite (includes_hasUpper _ _ H (toLowerCase_no_upper prompt)). }
  rewrite E. reflexivity.
Qed.

Lemma keyword_with_capital_never_matches_witness :
  calculateKeywordScore "use Partial and Pick" (["type"] ++ "Partial" :: ["pick"])
  = calculateKeywordScore "use Partial and Pick" (["type"] ++ ["pick"]).
Proof.
  exact (keyword_with_capital_never_matches "use Partial and Pick" "Partial"
           ["type"] ["pick"] eq_refl).
Defined.

Lemma keyword_score_cases (prompt : string) (keywords : list string) :
  let r := calculateKeywordScore prompt keywords in
  let m := Spec.matchedKeywords prompt keywords in
  (m = [] /\ r = mkScoreResult 0 [])
  \/ (m <> [] /\ r = mkScoreResult (Z.min 100 (70 + (len m - 1) * 5)) m).
Proof.
  cbv zeta. rewrite calculateKeywordScore_eq. cbv zeta.
  destruct (len _ =? 0) eqn:E.
  - left. apply len_nil_iff in E. split; [exact E | reflexivity].
  - right. split; [|reflexivity]. intros H. rewrite H in E. discriminate E.
Qed.

(** X2: the keyword score is 0 or at least 70, and it is at least 70
    exactly when some keyword of the list occurs in the lowercased
    prompt. *)
Theorem keyword_score_threshold (prompt : string) (keywords : list string) :
  let s := score (calculateKeywordScore prompt keywords) in
  (s = 0 \/ 70 <= s <= 100)
  /\ (70 <= s <-> exists k, In k keywords /\ Substring k (toLowerCase prompt)).
Proof.
  cbv zeta.
  destruct (keyword_score_cases prompt keywords) as [[Hm Hr] | [Hm Hr]];
    cbv zeta in Hr; rewrite Hr; cbn [score].
  - split; [left; reflexivity|]. split; [lia|].
    intros [k [Hin Hsub]]. exfalso.
    assert (Hk : In k (Spec.matchedKeywords prompt keywords)).
    { apply filter_In. split; [exact Hin | now apply includes_Substring]. }
    rewrite Hm in Hk. exact Hk.
  - pose proof (len_pos _ Hm) as Hl.
    assert (Hs : 70 <= Z.min 100 (70 + (len (Spec.matchedKeywords prompt keywords) - 1) * 5)
                 <= 100) by lia.
    split; [right; exact Hs|]. split; [|intros _; apply Hs].
    intros _. destruct (Spec.matchedKeywords prompt keywords) as [|k m] eqn:E;
      [congruence|].
    assert (Hk : In k (Spec.matchedKeywords prompt keywords)) by (rewrite E; now left).
    apply filter_In in Hk. destruct Hk as [Hin Hinc].
    exists k. split; [exact Hin | now apply includes_Substring].
Qed.

(** X3: an empty keyword occurs in every prompt, the empty one included: a
    skill that lists it scores at least 70 on keywords whatever is asked. *)
Theorem empty_keyword_always_matches (prompt : string) (keywords : list string) :
  In "" keywords ->
  In "" (matches (calculateKeywordScore prompt keywords))
  /\ 70 <= score (calculateKeywordScore prompt keywords).
Proof.
  intros Hin.
  assert (Hk : In "" (Spec.matchedKeywords prompt keywords)).
  { apply filter_In. split; [exact Hin | apply includes_empty]. }
  destruct (keyword_score_cases prompt keywords) as [[Hm Hr] | [Hm Hr]];
    cbv zeta in Hr; rewrite Hr; cbn [score matches].
  - rewrite Hm in Hk. destruct Hk.
  - split; [exact Hk|]. pose proof (len_pos _ Hm). lia.
Qed.

Lemma empty_keyword_always_matches_witness :
  In "" (matches (calculateKeywordScore "" ["convex"; ""]))
  /\ 70 <= score (calculateKeywordScore "" ["convex"; ""]).
Proof.
  apply (empty_keyword_always_matches "" ["convex"; ""]). simpl. auto.
Defined.

Lemma filter_Permutation {A : Type} (f : A -> bool) (l l' : list A) :
  Permutation l l' -> Permutation (filter f l) (filter f l').
Proof.
  induction 1 as [|x l l' _ IH|x y l|l l' l'' _ IH1 _ IH2]; simpl.
  - constructor.
  - destruct (f x); [now constructor | exact IH].
  - destruct (f x), (f y); try apply Permutation_refl. apply perm_swap.
  - eapply Permutation_trans; eassumption.
Qed.

Lemma len_Permutation (l l' : list string) : Permutation l l' -> len l = len l'.
Proof. intros H. unfold len. now rewrite (Permutation_length H). Qed.

Lemma score_of_len (prompt : string) (keywords : list string) :
  score (calculateKeywordScore prompt keywords)
  = let n := len (Spec.matchedKeywords prompt keywords) in
    if n =? 0 then 0 else Z.min 100 (70 + (n - 1) * 5).
Proof.
  rewrite calculateKeywordScore_eq. cbv zeta.
  destruct (len _ =? 0); reflexivity.
Qed.

(** X4: the keyword score does not depend on the order of the keyword
    list: a reordered list gives the same score and the same matched
    keywords, reordered. *)
Theorem keyword_score_order_irrelevant (prompt : string) (keywords keywords' : list string) :
  Permutation keywords keywords' ->
  score (calculateKeywordScore prompt keywords)
  = score (calculateKeywordScore prompt keywords')
  /\ Permutation (matches (calculateKeywordScore prompt keywords))
                 (matches (calculateKeywordScore prompt keywords')).
Proof.
  intros H.
  assert (Hm : Permutation (Spec.matchedKeywords prompt keywords)
                           (Spec.matchedKeywords prompt keywords'))
    by (apply filter_Permutation; exact H).
  split.
  - rewrite !score_of_len. cbv zeta. now rewrite (len_Permutation _ _ Hm).
  - destruct (keyword_score_cases prompt keywords) as [[E Hr] | [E Hr]];
      destruct (keyword_score_cases prompt keywords') as [[E' Hr'] | [E' Hr']];
      cbv zeta in Hr, Hr'; rewrite Hr, Hr'; cbn [matches].
    + constructor.
    + rewrite E in Hm. apply Permutation_nil in Hm. contradiction.
    + rewrite E' in Hm. apply Permutation_sym, Permutation_nil in Hm. contradiction.
    + exact Hm.
Qed.

Lemma keyword_score_order_irrelevant_witness :
  score (calculateKeywordScore "a convex query" ["convex"; "mutation"; "query"])
  = score (calculateKeywordScore "a convex query" ["query"; "convex"; "mutation"])
  /\ Permutation (matches (calculateKeywordScore "a convex query"
                                                  ["convex"; "mutation"; "query"]))
                 (matches (calculateKeywordScore "a convex query"
                                                  ["query"; "convex"; "mutation"])).
Proof.
  apply (keyword_score_order_irrelevant "a convex query"
           ["convex"; "mutation"; "query"] ["query"; "convex"; "mutation"]).
  apply Permutation_sym.
  change (Permutation (["query"] ++ ["convex"; "mutation"])
                      (["convex"; "mutation"] ++ ["query"])).
  apply Permutation_app_comm.
Defined.

Lemma keyword_score_app_le (prompt : string) (keywords more : list string) :
  score (calculateKeywordScore prompt keywords)
  <= score (calculateKeywordScore prompt (keywords ++ more)).
Proof.
  rewrite !score_of_len. cbv zeta. rewrite matchedKeywords_app.
  set (a := Spec.matchedKeywords prompt keywords).
  set (b := Spec.matchedKeywords prompt more).
  assert (Hl : len (a ++ b) = len a + len b).
  { unfold len. rewrite length_app. lia. }
  assert (Ha : 0 <= len a) by (unfold len; lia).
  assert (Hb : 0 <= len b) by (unfold len; lia).
  rewrite Hl. clearbody a b.
  destruct (Z.eqb_spec (len a) 0), (Z.eqb_spec (len a + len b) 0); lia.
Qed.

(** X5: listing more keywords never lowers the keyword score, and keeps
    every keyword that matched before. *)
Theorem keyword_score_grows_with_list (prompt : string) (keywords more : list string) :
  score (calculateKeywordScore prompt keywords)
  <= score (calculateKeywordScore prompt (keywords ++ more))
  /\ incl (matches (calculateKeywordScore prompt keywords))
          (matches (calculateKeywordScore prompt (keywords ++ more))).
Proof.
  split; [apply keyword_score_app_le|].
  intros k Hk.
  destruct (keyword_score_cases prompt keywords) as [[E Hr] | [E Hr]];
    cbv zeta in Hr; rewrite Hr in Hk; cbn [matches] in Hk; [destruct Hk|].
  assert (Hin : In k (Spec.matchedKeywords prompt (keywords ++ more))).
  { rewrite matchedKeywords_app. apply in_or_app. now left. }
  destruct (keyword_score_cases prompt (keywords ++ more)) as [[E' Hr'] | [E' Hr']];
    cbv zeta in Hr'; rewrite Hr'; cbn [matches].
  - rewrite E' in Hin. destruct Hin.
  - exact Hin.
Qed.

(** ** File scorer *)

Lemma existsb_same_elements {A : Type} (f : A -> bool) (l l' : list A) :
  (forall x, In x l <-> In x l') -> existsb f l = existsb f l'.
Proof.
  intros H. destruct (existsb f l) eqn:E, (existsb f l') eqn:E'; try reflexivity.
  - apply existsb_exists in E. destruct E as [x [Hin Hx]].
    assert (existsb f l' = true) by (apply existsb_exists; exists x; split; [now apply H | exact Hx]).
    congruence.
  - apply existsb_exists in E'. destruct E' as [x [Hin Hx]].
    assert (existsb f l = true) by (apply existsb_exists; exists x; split; [now apply H | exact Hx]).
    congruence.
Qed.

(** X6: although the inner loop stops at the first matching pattern, the
    file score depends only on which patterns are listed, not on their
    order or repetition. *)
Theorem file_score_pattern_order_irrelevant (minimatch : string -> string -> bool)
        (openFiles filePatterns filePatterns' : list string) :
  (forall p, In p filePatterns <-> In p filePatterns') ->
  calculateFileScore minimatch openFiles filePatterns
  = calculateFileScore minimatch openFiles filePatterns'.
Proof.
  intros H. rewrite !calculateFileScore_eq. cbv zeta.
  assert (E : Spec.matchedFiles minimatch openFiles filePatterns
              = Spec.matchedFiles minimatch openFiles filePatterns').
  { unfold Spec.matchedFiles. apply filter_ext. intros f.
    now apply existsb_same_elements. }
  now rewrite E.
Qed.

Lemma file_score_pattern_order_irrelevant_witness :
  calculateFileScore literalGlob ["a.ts"; "b.ts"] ["a.ts"; "b.ts"]
  = calculateFileScore literalGlob ["a.ts"; "b.ts"] ["b.ts"; "a.ts"; "b.ts"].
Proof.
  apply (file_score_pattern_order_irrelevant literalGlob ["a.ts"; "b.ts"]
           ["a.ts"; "b.ts"] ["b.ts"; "a.ts"; "b.ts"]).
  intros p. simpl. tauto.
Defined.

Lemma calculateFileScore_matches (minimatch : string -> string -> bool)
      (openFiles filePatterns : list string) :
  matches (calculateFileScore minimatch openFiles filePatterns)
  = Spec.matchedFiles minimatch openFiles filePatterns.
Proof.
  rewrite calculateFileScore_eq. cbv zeta.
  destruct (len _ =? 0) eqn:E; [|reflexivity].
  apply len_nil_iff in E. now rewrite E.
Qed.

(** X7: the open files are judged one by one: the matched files of two
    lists put end to end are the matched files of the first followed by
    those of the second, so a file opened twice is matched twice. *)
Theorem file_matches_of_concatenation (minimatch : string -> string -> bool)
        (openFiles moreFiles filePatterns : list string) :
  matches (calculateFileScore minimatch (openFiles ++ moreFiles) filePatterns)
  = (matches (calculateFileScore minimatch openFiles filePatterns)
     ++ matches (calculateFileScore minimatch moreFiles filePatterns))%list.
Proof.
  rewrite !calculateFileScore_matches. unfold Spec.matchedFiles. apply filter_app.
Qed.

(** ** Content scorer *)

Lemma contentLoop_filter (p : string) (cats acc : list string) :
  forallb knownCategory cats = true ->
  contentLoop p cats acc = Returns (acc ++ filter (categoryMatches p) cats)%list.
Proof.
  revert acc; induction cats as [|c cs IH]; intros acc H; simpl in *.
  - now rewrite app_nil_r.
  - apply andb_true_iff in H. destruct H as [Hc Hcs].
    unfold knownCategory in Hc. unfold categoryMatches at 1, getProperty.
    destruct (ownProperty SEMANTIC_PATTERNS c) as [r|]; [|discriminate].
    simpl. destruct (test r p).
    + rewrite (IH _ Hcs). now rewrite <- app_assoc.
    + exact (IH _ Hcs).
Qed.

Lemma listed_categories_known (skillName : string) (cats : list string) :
  ownProperty skillPatterns skillName = Some cats ->
  forallb knownCategory cats = true.
Proof.
  intros H. apply ownProperty_In in H.
  pose proof skillPatterns_known as K. rewrite forallb_forall in K.
  exact (K _ H).
Qed.

(** X8: for a skill of the table, the matched categories are those of its
    categories, in table order, whose pattern tests true on the lowercased
    prompt; the content score is 0 when there is none and otherwise 70 plus
    10 per further category, capped at 100. *)
Theorem content_score_of_listed_skill (prompt skillName : string) (cats : list string) :
  ownProperty skillPatterns skillName = Some cats ->
  let matched := filter (categoryMatches (toLowerCase prompt)) cats in
  exists r, calculateContentScore prompt skillName = Returns r
            /\ matches r = matched
            /\ (matched = [] -> score r = 0)
            /\ (matched <> [] -> score r = Z.min 100 (70 + 10 * (len matched - 1))).
Proof.
  intros H matched. unfold calculateContentScore, getProperty.
  rewrite H. cbn [nullish forOfContent].
  rewrite (contentLoop_filter _ _ _ (listed_categories_known _ _ H)).
  cbn [app bind]. fold matched. cbv zeta.
  destruct (len matched =? 0) eqn:E.
  - apply len_nil_iff in E. eexists. split; [reflexivity|]. cbn [matches score].
    repeat split; auto. intros Hne. contradiction.
  - eexists. split; [reflexivity|]. cbn [matches score].
    split; [reflexivity|]. split.
    + intros Hm. rewrite Hm in E. discriminate E.
    + intros _. now rewrite (Z.mul_comm 10).
Qed.

Lemma content_score_of_listed_skill_witness :
  exists r, calculateContentScore "Validate the login FORM" "security-patterns" = Returns r
            /\ matches r = ["validation/security"; "auth/session"]
            /\ score r = 80.
Proof.
  destruct (content_score_of_listed_skill "Validate the login FORM" "security-patterns"
              ["validation/security"; "auth/session"; "payment/stripe"] eq_refl)
    as [r [Hr [Hm [_ Hs]]]].
  exists r. split; [exact Hr|]. split; [exact Hm|]. apply Hs. discriminate.
Defined.

(** ** Details and confidence *)


Lemma subResult_props (base bonus : Z) (m : list string) :
  0 < base <= 100 -> 0 <= bonus ->
  (score (subResult base bonus m) = 0 <-> matches (subResult base bonus m) = [])
  /\ 0 <= score (subResult base bonus m) <= 100.
Proof.
  intros Hb Hk. unfold subResult. destruct (len m =? 0) eqn:E; cbn [score matches].
  - split; [tauto | lia].
  - assert (Hm : m <> []) by (intros ->; discriminate E).
    pose proof (len_pos _ Hm) as Hl.
    assert (0 <= (len m - 1) * bonus) by (apply Z.mul_nonneg_nonneg; lia).
    split; [|lia]. split; [lia | contradiction].
Qed.

Lemma content_score_shape (prompt skillName : string) (r : ScoreResult) :
  calculateContentScore prompt skillName = Returns r ->
  exists m, r = subResult 70 10 m.
Proof.
  unfold calculateContentScore. intros H.
  destruct (forOfContent _ _) as [m|e]; cbn [bind] in H; [|discriminate H].
  exists m. unfold subResult. cbv zeta in H.
  destruct (len m =? 0); now injection H as <-.
Qed.

(** What a returning call returns, in terms of the three sub-results. *)
Lemma calculateConfidence_inv (minimatch : string -> string -> bool)
      (prompt : string) (skill : DiscoveredSkill) (context : option Context)
      (r : Confidence) :
  calculateConfidence minimatch prompt skill context = Returns r ->
  exists kr fr cr,
    kr = calculateKeywordScore prompt (keywords skill)
    /\ fr = calculateFileScore minimatch (openFilesOf context) (filePatterns skill)
    /\ calculateContentScore prompt (name skill) = Returns cr
    /\ In (score kr) keywordScores /\ In (score fr) fileScores
    /\ In (score cr) contentScores
    /\ r = (if noneActive (score kr) (score fr) (score cr)
            then mkConfidence zero (mkDetails [] [] [] 0 0 0)
            else mkConfidence (combined (score kr) (score fr) (score cr))
                   (mkDetails (matches kr) (matches fr) (matches cr)
                              (score kr) (score fr) (score cr))).
Proof.
  intros Hr.
  destruct (calculateContentScore prompt (name skill)) as [cr|e] eqn:H.
  - destruct (scores_reachable minimatch prompt skill context _ H) as [Hk [Hf Hc]].
    pose proof (calculateConfidence_eq minimatch prompt skill context _ H) as E.
    cbv zeta in E. rewrite E in Hr. injection Hr as <-.
    eexists _, _, cr. repeat split; try reflexivity; assumption.
  - unfold calculateConfidence in Hr. rewrite H in Hr. discriminate Hr.
Qed.

(** X9: in the details of every result, a sub-score is 0 exactly when its
    match list is empty, and every sub-score lies between 0 and 100. *)
Theorem details_scores_and_matches_agree (minimatch : string -> string -> bool)
        (prompt : string) (skill : DiscoveredSkill) (context : option Context)
        (r : Confidence) :
  calculateConfidence minimatch prompt skill context = Returns r ->
  let d := details r in
  (keywordScore d = 0 <-> keywordMatches d = [])
  /\ (fileScore d = 0 <-> fileMatches d = [])
  /\ (contentScore d = 0 <-> contentMatches d = [])
  /\ 0 <= keywordScore d <= 100 /\ 0 <= fileScore d <= 100
  /\ 0 <= contentScore d <= 100.
Proof.
  intros Hr d. subst d.
  destruct (calculateConfidence_inv _ _ _ _ _ Hr)
    as [kr [fr [cr [Ek [Ef [Ec [_ [_ [_ ->]]]]]]]]].
  destruct (noneActive _ _ _); cbn [details keywordScore fileScore contentScore
                                      keywordMatches fileMatches contentMatches].
  - repeat split; lia.
  - destruct (content_score_shape _ _ _ Ec) as [m ->].
    rewrite calculateKeywordScore_eq in Ek. rewrite calculateFileScore_eq in Ef.
    cbv zeta in Ek, Ef. fold (subResult 70 5 (Spec.matchedKeywords prompt (keywords skill))) in Ek.
    fold (subResult 80 10 (Spec.matchedFiles minimatch (openFilesOf context)
                                             (filePatterns skill))) in Ef.
    subst kr fr.
    destruct (subResult_props 70 5 (Spec.matchedKeywords prompt (keywords skill)))
      as [A1 A2]; try lia.
    destruct (subResult_props 80 10 (Spec.matchedFiles minimatch (openFilesOf context)
                                                       (filePatterns skill)))
      as [B1 B2]; try lia.
    destruct (subResult_props 70 10 m) as [C1 C2]; try lia.
    repeat split; try tauto; lia.
Qed.

Lemma details_scores_and_matches_agree_witness :
  exists r,
    calculateConfidence literalGlob "a convex mutation" convexSkill schemaOpen = Returns r
    /\ (fileScore (details r) = 0 <-> fileMatches (details r) = [])
    /\ 0 <= keywordScore (details r) <= 100.
Proof.
  eexists. split; [reflexivity|].
  pose proof (details_scores_and_matches_agree literalGlob "a convex mutation"
                convexSkill schemaOpen _ eq_refl) as H.
  cbv zeta in H. destruct H as [_ [Hf [_ [Hk _]]]]. split; [exact Hf | exact Hk].
Defined.

Lemma triples_forall (P : Z -> Z -> Z -> bool) :
  forallb (fun ks => forallb (fun fs => forallb (fun cs => P ks fs cs)
                                                contentScores) fileScores)
          keywordScores = true ->
  forall ks fs cs, In ks keywordScores -> In fs fileScores -> In cs contentScores ->
                   P ks fs cs = true.
Proof.
  intros H ks fs cs Hk Hf Hc.
  rewrite forallb_forall in H. specialize (H _ Hk).
  rewrite forallb_forall in H. specialize (H _ Hf).
  rewrite forallb_forall in H. exact (H _ Hc).
Qed.

(** With no active signal the confidence is 0; with one it is at least 70. *)
Lemma confidence_dichotomy_table (ks fs cs : Z) :
  In ks keywordScores -> In fs fileScores -> In cs contentScores ->
  (if noneActive ks fs cs then Spec.confidence ks fs cs =? 0
   else (70 <=? Spec.confidence ks fs cs) && (Spec.confidence ks fs cs <=? 100))
  = true.
Proof.
  apply (triples_forall
           (fun ks fs cs =>
              if noneActive ks fs cs then Spec.confidence ks fs cs =? 0
              else (70 <=? Spec.confidence ks fs cs)
                   && (Spec.confidence ks fs cs <=? 100))).
  vm_compute. reflexivity.
Qed.

(** X10: a returned confidence is 0 or at least 70, and it is 0 exactly
    when nothing matched on any of the three signals: every skill with a
    match reaches the default threshold of 70. *)
Theorem confidence_zero_or_seventy (minimatch : string -> string -> bool)
        (prompt : string) (skill : DiscoveredSkill) (context : option Context)
        (r : Confidence) :
  calculateConfidence minimatch prompt skill context = Returns r ->
  exists n : Z,
    confidence r = Z2F n
    /\ (n = 0 \/ 70 <= n <= 100)
    /\ (n = 0 <-> keywordMatches (details r) = [] /\ fileMatches (details r) = []
                  /\ contentMatches (details r) = []).
Proof.
  intros Hr.
  pose proof (details_of := calculateConfidence_inv _ _ _ _ _ Hr).
  destruct details_of as [kr [fr [cr [Ek [Ef [Ec [Hk [Hf [Hc E]]]]]]]]].
  pose proof (confidence_dichotomy_table _ _ _ Hk Hf Hc) as T.
  destruct (combined_spec _ _ _ Hk Hf Hc) as [C _].
  destruct (content_score_shape _ _ _ Ec) as [m Em].
  assert (Zk : score kr = 0 <-> matches kr = []).
  { subst kr. rewrite calculateKeywordScore_eq. cbv zeta.
    apply (subResult_props 70 5); lia. }
  assert (Zf : score fr = 0 <-> matches fr = []).
  { subst fr. rewrite calculateFileScore_eq. cbv zeta.
    apply (subResult_props 80 10); lia. }
  assert (Zc : score cr = 0 <-> matches cr = []).
  { subst cr. apply (subResult_props 70 10); lia. }
  assert (Nk : 0 <= score kr) by (eapply In_nonneg; eauto; reflexivity).
  assert (Nf : 0 <= score fr) by (eapply In_nonneg; eauto; reflexivity).
  assert (Nc : 0 <= score cr) by (eapply In_nonneg; eauto; reflexivity).
  pose proof (noneActive_zero _ _ _ Nk Nf Nc) as Z0.
  destruct (noneActive (score kr) (score fr) (score cr)) eqn:Hn; subst r.
  - exists 0. cbn [confidence details keywordMatches fileMatches contentMatches].
    split; [reflexivity|]. split; [now left|]. tauto.
  - exists (Spec.confidence (score kr) (score fr) (score cr)).
    cbn [confidence details keywordMatches fileMatches contentMatches].
    apply andb_true_iff in T. destruct T as [T1 T2].
    apply Z.leb_le in T1. apply Z.leb_le in T2.
    split; [exact C|]. split; [right; lia|]. split.
    + intros H0. lia.
    + intros [M1 [M2 M3]]. exfalso.
      assert (Habs : false = true) by (apply Z0; tauto).
      discriminate Habs.
Qed.

Lemma confidence_zero_or_seventy_witness :
  exists r n,
    calculateConfidence literalGlob "add a convex mutation for the webhook"
                        convexSkill schemaOpen = Returns r
    /\ confidence r = Z2F n /\ (n = 0 \/ 70 <= n <= 100).
Proof.
  assert (E : exists r, calculateConfidence literalGlob
                          "add a convex mutation for the webhook"
                          convexSkill schemaOpen = Returns r)
    by (eexists; vm_compute; reflexivity).
  destruct E as [r E]. exists r.
  destruct (confidence_zero_or_seventy literalGlob
              "add a convex mutation for the webhook" convexSkill schemaOpen r E)
    as [n [H1 [H2 _]]].
  exists n. split; [exact E|]. split; [exact H1 | exact H2].
Defined.

(** The confidence lies between the smallest and the largest active
    sub-score. *)
Lemma confidence_between_table (ks fs cs : Z) :
  In ks keywordScores -> In fs fileScores -> In cs contentScores ->
  noneActive ks fs cs
  || (existsb (fun lo => lo <=? Spec.confidence ks fs cs) (filter (Z.ltb 0) [ks; fs; cs])
      && existsb (fun hi => Spec.confidence ks fs cs <=? hi) (filter (Z.ltb 0) [ks; fs; cs]))
  = true.
Proof.
  apply (triples_forall
           (fun ks fs cs =>
              noneActive ks fs cs
              || (existsb (fun lo => lo <=? Spec.confidence ks fs cs)
                          (filter (Z.ltb 0) [ks; fs; cs])
                  && existsb (fun hi => Spec.confidence ks fs cs <=? hi)
                             (filter (Z.ltb 0) [ks; fs; cs])))).
  vm_compute. reflexivity.
Qed.

(** X11: when some signal is active, the confidence is an average: it is
    no smaller than the smallest active sub-score and no larger than the
    largest. *)
Theorem confidence_between_active_scores (minimatch : string -> string -> bool)
        (prompt : string) (skill : DiscoveredSkill) (context : option Context)
        (r : Confidence) :
  calculateConfidence minimatch prompt skill context = Returns r ->
  activeScoresOf (details r) <> [] ->
  exists n lo hi : Z,
    confidence r = Z2F n
    /\ In lo (activeScoresOf (details r)) /\ In hi (activeScoresOf (details r))
    /\ lo <= n <= hi.
Proof.
  intros Hr Hact.
  destruct (calculateConfidence_inv _ _ _ _ _ Hr)
    as [kr [fr [cr [_ [_ [_ [Hk [Hf [Hc E]]]]]]]]].
  pose proof (confidence_between_table _ _ _ Hk Hf Hc) as T.
  destruct (combined_spec _ _ _ Hk Hf Hc) as [C _].
  destruct (noneActive (score kr) (score fr) (score cr)) eqn:Hn; subst r.
  - exfalso. apply Hact. reflexivity.
  - cbn [orb] in T. apply andb_true_iff in T. destruct T as [T1 T2].
    apply existsb_exists in T1. destruct T1 as [lo [Hlo Llo]].
    apply existsb_exists in T2. destruct T2 as [hi [Hhi Lhi]].
    apply Z.leb_le in Llo. apply Z.leb_le in Lhi.
    exists (Spec.confidence (score kr) (score fr) (score cr)), lo, hi.
    cbn [confidence details]. unfold activeScoresOf.
    cbn [keywordScore fileScore contentScore].
    split; [exact C|]. split; [exact Hlo|]. split; [exact Hhi | lia].
Qed.

Lemma confidence_between_active_scores_witness :
  exists r n lo hi,
    calculateConfidence literalGlob "add a convex mutation for the webhook"
                        convexSkill schemaOpen = Returns r
    /\ confidence r = Z2F n
    /\ In lo (activeScoresOf (details r)) /\ In hi (activeScoresOf (details r))
    /\ lo <= n <= hi.
Proof.
  assert (E : calculateConfidence literalGlob "add a convex mutation for the webhook"
                                  convexSkill schemaOpen
              = Returns (mkConfidence (Z2F 78)
                           (mkDetails ["convex"; "mutation"] ["convex/schema.ts"]
                                      ["webhook/callback"; "database/schema"] 75 80 80)))
    by (vm_compute; reflexivity).
  eexists.
  destruct (confidence_between_active_scores literalGlob
              "add a convex mutation for the webhook" convexSkill schemaOpen _ E)
    as [n [lo [hi H]]].
  - discriminate.
  - exists n, lo, hi. split; [exact E | exact H].
Defined.

Lemma reachable_In (ks fs cs : Z) :
  In ks keywordScores -> In fs fileScores -> In cs contentScores ->
  In (ks, fs, cs) reachable.
Proof.
  intros Hk Hf Hc. unfold reachable.
  apply in_flat_map. exists ks. split; [exact Hk|].
  apply in_flat_map. exists fs. split; [exact Hf|].
  apply in_map. exact Hc.
Qed.

Lemma combined_monotone_table :
  let values := map (fun t => (t, combinedOf t)) reachable in
  forallb (fun tv => forallb (fun tv' =>
             implb (sameSignalsLe (fst tv) (fst tv')) (PrimFloat.leb (snd tv) (snd tv')))
             values) values = true.
Proof. vm_compute. reflexivity. Qed.

Lemma combined_monotone (ks fs cs ks' fs' cs' : Z) :
  In ks keywordScores -> In fs fileScores -> In cs contentScores ->
  In ks' keywordScores -> In fs' fileScores -> In cs' contentScores ->
  sameSignalsLe (ks, fs, cs) (ks', fs', cs') = true ->
  PrimFloat.leb (combined ks fs cs) (combined ks' fs' cs') = true.
Proof.
  intros Hk Hf Hc Hk' Hf' Hc' Hs.
  pose proof combined_monotone_table as T. cbv zeta in T.
  rewrite forallb_forall in T.
  specialize (T _ (in_map (fun t => (t, combinedOf t)) _ _
                          (reachable_In _ _ _ Hk Hf Hc))).
  rewrite forallb_forall in T.
  specialize (T _ (in_map (fun t => (t, combinedOf t)) _ _
                          (reachable_In _ _ _ Hk' Hf' Hc'))).
  cbn [fst snd] in T. rewrite Hs in T. exact T.
Qed.

Lemma noneActive_false_sameSignals (t t' : Z * Z * Z) :
  sameSignalsLe t t' = true ->
  noneActive (fst (fst t)) (snd (fst t)) (snd t)
  = noneActive (fst (fst t')) (snd (fst t')) (snd t').
Proof.
  destruct t as [[ks fs] cs], t' as [[ks' fs'] cs']. cbn [fst snd].
  unfold sameSignalsLe, noneActive. intros H.
  repeat (apply andb_true_iff in H; destruct H as [H ?]).
  repeat match goal with
         | E : Bool.eqb _ _ = true |- _ => apply eqb_prop in E
         end.
  congruence.
Qed.

(** X12: as long as the same signals are active, the confidence is
    monotone: if no sub-score of a second result is smaller, its confidence
    is not smaller either. *)
Theorem confidence_monotone_for_same_signals (minimatch : string -> string -> bool)
        (prompt prompt' : string) (skill skill' : DiscoveredSkill)
        (context context' : option Context) (r r' : Confidence) :
  calculateConfidence minimatch prompt skill context = Returns r ->
  calculateConfidence minimatch prompt' skill' context' = Returns r' ->
  (0 <? keywordScore (details r)) = (0 <? keywordScore (details r')) ->
  (0 <? fileScore (details r)) = (0 <? fileScore (details r')) ->
  (0 <? contentScore (details r)) = (0 <? contentScore (details r')) ->
  keywordScore (details r) <= keywordScore (details r') ->
  fileScore (details r) <= fileScore (details r') ->
  contentScore (details r) <= contentScore (details r') ->
  PrimFloat.leb (confidence r) (confidence r') = true.
Proof.
  intros Hr Hr' Ak Af Ac Lk Lf Lc.
  destruct (calculateConfidence_inv _ _ _ _ _ Hr)
    as [kr [fr [cr [_ [_ [_ [Hk [Hf [Hc E]]]]]]]]].
  destruct (calculateConfidence_inv _ _ _ _ _ Hr')
    as [kr' [fr' [cr' [_ [_ [_ [Hk' [Hf' [Hc' E']]]]]]]]].
  assert (Nk : 0 <= score kr) by (eapply In_nonneg; eauto; reflexivity).
  assert (Nf : 0 <= score fr) by (eapply In_nonneg; eauto; reflexivity).
  assert (Nc : 0 <= score cr) by (eapply In_nonneg; eauto; reflexivity).
  assert (Nk' : 0 <= score kr') by (eapply In_nonneg; eauto; reflexivity).
  assert (Nf' : 0 <= score fr') by (eapply In_nonneg; eauto; reflexivity).
  assert (Nc' : 0 <= score cr') by (eapply In_nonneg; eauto; reflexivity).
  pose proof (noneActive_zero _ _ _ Nk Nf Nc) as Z0.
  pose proof (noneActive_zero _ _ _ Nk' Nf' Nc') as Z0'.
  destruct (noneActive (score kr) (score fr) (score cr)) eqn:Hn;
    destruct (noneActive (score kr') (score fr') (score cr')) eqn:Hn';
    subst r r'; cbn [details confidence keywordScore fileScore contentScore] in *.
  - reflexivity.
  - exfalso. assert (Habs : false = true); [|discriminate Habs].
    apply Z0'. cbn [Z.ltb Z.compare] in Ak, Af, Ac.
    symmetry in Ak, Af, Ac. apply Z.ltb_ge in Ak, Af, Ac. lia.
  - exfalso. assert (Habs : false = true); [|discriminate Habs].
    apply Z0. cbn [Z.ltb Z.compare] in Ak, Af, Ac.
    apply Z.ltb_ge in Ak, Af, Ac. lia.
  - apply combined_monotone; try assumption.
    unfold sameSignalsLe. rewrite Ak, Af, Ac, !eqb_reflx. cbn [andb].
    apply Z.leb_le in Lk, Lf, Lc. now rewrite Lk, Lf, Lc.
Qed.

Lemma confidence_monotone_for_same_signals_witness :
  exists r r',
    calculateConfidence literalGlob "a query" convexSkill schemaOpen = Returns r
    /\ calculateConfidence literalGlob "a convex query" convexSkill schemaOpen
       = Returns r'
    /\ PrimFloat.leb (confidence r) (confidence r') = true.
Proof.
  assert (E : calculateConfidence literalGlob "a query" convexSkill schemaOpen
              = Returns (mkConfidence (Z2F 73)
                           (mkDetails ["query"] ["convex/schema.ts"]
                                      ["database/schema"] 70 80 70)))
    by (vm_compute; reflexivity).
  assert (E' : calculateConfidence literalGlob "a convex query" convexSkill schemaOpen
               = Returns (mkConfidence (Z2F 75)
                            (mkDetails ["convex"; "query"] ["convex/schema.ts"]
                                       ["database/schema"] 75 80 70)))
    by (vm_compute; reflexivity).
  eexists _, _. split; [exact E|]. split; [exact E'|].
  apply (confidence_monotone_for_same_signals literalGlob
           "a query" "a convex query" convexSkill convexSkill
           schemaOpen schemaOpen _ _ E E');
    cbn [details keywordScore fileScore contentScore]; (reflexivity || lia).
Defined.

(** X13: once the keyword signal is active, listing more keywords for the
    skill never lowers its confidence.  (A signal that becomes active can:
    see [new_signal_can_lower_confidence].) *)
Theorem more_keywords_never_lower_confidence (minimatch : string -> string -> bool)
        (prompt : string) (skill : DiscoveredSkill) (more : list string)
        (context : option Context) (r r' : Confidence) :
  0 < score (calculateKeywordScore prompt (keywords skill)) ->
  calculateConfidence minimatch prompt skill context = Returns r ->
  calculateConfidence minimatch prompt (withKeywords skill (keywords skill ++ more))
                      context = Returns r' ->
  PrimFloat.leb (confidence r) (confidence r') = true.
Proof.
  intros Hpos Hr Hr'.
  destruct (calculateConfidence_inv _ _ _ _ _ Hr)
    as [kr [fr [cr [Ek [Ef [Ec [Hk [Hf [Hc E]]]]]]]]].
  destruct (calculateConfidence_inv _ _ _ _ _ Hr')
    as [kr' [fr' [cr' [Ek' [Ef' [Ec' [Hk' [Hf' [Hc' E']]]]]]]]].
  cbn [withKeywords keywords filePatterns name] in Ek', Ef', Ec'.
  assert (Hcr : cr' = cr) by congruence. assert (Hfr : fr' = fr) by congruence.
  rewrite Hcr, Hfr in *. clear Hcr Hfr Ef' Ec'.
  assert (Lk : score kr <= score kr').
  { subst kr kr'. apply keyword_score_app_le. }
  assert (Pk : 0 < score kr) by (subst kr; exact Hpos).
  assert (Ak : (0 <? score kr) = true) by (apply Z.ltb_lt; lia).
  assert (Ak' : (0 <? score kr') = true) by (apply Z.ltb_lt; lia).
  assert (Hn : noneActive (score kr) (score fr) (score cr) = false)
    by (unfold noneActive; now rewrite Ak).
  assert (Hn' : noneActive (score kr') (score fr) (score cr) = false)
    by (unfold noneActive; now rewrite Ak').
  rewrite Hn in E. rewrite Hn' in E'. subst r r'. cbn [confidence].
  apply combined_monotone; try assumption.
  apply Z.leb_le in Lk.
  unfold sameSignalsLe. rewrite Ak, Ak', Lk, !eqb_reflx, !Z.leb_refl. reflexivity.
Qed.

Lemma more_keywords_never_lower_confidence_witness :
  exists r r',
    calculateConfidence literalGlob "a convex webhook" convexSkill None = Returns r
    /\ calculateConfidence literalGlob "a convex webhook"
         (withKeywords convexSkill (keywords convexSkill ++ ["webhook"])) None
       = Returns r'
    /\ PrimFloat.leb (confidence r) (confidence r') = true.
Proof.
  assert (E : exists r, calculateConfidence literalGlob "a convex webhook"
                                            convexSkill None = Returns r)
    by (eexists; vm_compute; reflexivity).
  assert (E' : exists r', calculateConfidence literalGlob "a convex webhook"
                 (withKeywords convexSkill (keywords convexSkill ++ ["webhook"])) None
               = Returns r')
    by (eexists; vm_compute; reflexivity).
  destruct E as [r E], E' as [r' E']. exists r, r'.
  split; [exact E|]. split; [exact E'|].
  apply (more_keywords_never_lower_confidence literalGlob "a convex webhook"
           convexSkill ["webhook"] None r r'); [|exact E | exact E'].
  vm_compute. reflexivity.
Defined.

(** X14: the prompt is only ever read through [toLowerCase]: two prompts
    that differ in the case of their letters get the same result. *)
Theorem prompt_case_is_irrelevant (minimatch : string -> string -> bool)
        (prompt prompt' : string) (skill : DiscoveredSkill) (context : option Context) :
  toLowerCase prompt = toLowerCase prompt' ->
  calculateConfidence minimatch prompt skill context
  = calculateConfidence minimatch prompt' skill context.
Proof.
  intros H. unfold calculateConfidence, calculateKeywordScore, calculateContentScore.
  rewrite H. reflexivity.
Qed.

Lemma prompt_case_is_irrelevant_witness :
  calculateConfidence literalGlob "A Convex QUERY" convexSkill schemaOpen
  = calculateConfidence literalGlob "a convex query" convexSkill schemaOpen.
Proof.
  apply (prompt_case_is_irrelevant literalGlob "A Convex QUERY" "a convex query").
  vm_compute. reflexivity.
Defined.

Example new_signal_can_lower_confidence :
  exists r r',
    calculateConfidence literalGlob "x"
      (mkSkill "s" "d" ["y"] ["a"; "b"; "c"] "p" "p/SKILL.md")
      (Some (mkContext (Some ["a"; "b"; "c"]) None)) = Returns r
    /\ calculateConfidence literalGlob "x"
         (mkSkill "s" "d" ["y"; "x"] ["a"; "b"; "c"] "p" "p/SKILL.md")
         (Some (mkContext (Some ["a"; "b"; "c"]) None)) = Returns r'
    /\ confidence r = Z2F 100 /\ confidence r' = Z2F 83.
Proof. eexists _, _. repeat split; vm_compute; reflexivity. Qed.

(** ** Path validator, continued *)

(** X15: a path that [validatePath] returns has passed every step: the
    allowed directory resolves, the unresolved target lies under it and
    exists, the returned path is the symlink-free form of the target and
    lies under the project root, and the normalized target has no [..]. *)
Theorem validated_path_guarantees (P : Platform) (targetPath allowedDir value : string) :
  validatePath P targetPath allowedDir = ok value ->
  exists resolvedAllowedDir,
    realpathSync P allowedDir = Some resolvedAllowedDir
    /\ startsWith (resolve P [normalize P targetPath])
                  (withSep P resolvedAllowedDir) = true
    /\ existsSync P (resolve P [normalize P targetPath]) = true
    /\ realpathSync P (resolve P [normalize P targetPath]) = Some value
    /\ startsWith value (withSep P (resolve P [resolvedAllowedDir; ".."])) = true
    /\ includes (normalize P targetPath) ".." = false.
Proof.
  unfold validatePath. intros H.
  destruct (realpathSync P allowedDir) as [rad|]; [|discriminate H].
  cbv zeta in H. exists rad. split; [reflexivity|].
  destruct (startsWith (resolve P [normalize P targetPath]) (withSep P rad)) eqn:E1;
    cbn [negb] in H; [|discriminate H].
  destruct (existsSync P (resolve P [normalize P targetPath])) eqn:E2;
    cbn [negb] in H; [|discriminate H].
  destruct (realpathSync P (resolve P [normalize P targetPath])) as [rp|] eqn:E3;
    [|discriminate H].
  destruct (startsWith rp (withSep P (resolve P [rad; ".."]))) eqn:E4;
    cbn [negb] in H; [|discriminate H].
  destruct (includes (normalize P targetPath) "..") eqn:E5; [discriminate H|].
  injection H as <-. repeat split; assumption || reflexivity.
Qed.

Lemma validated_path_guarantees_witness :
  exists resolvedAllowedDir,
    realpathSync (Posix.platform repoFs) ".claude" = Some resolvedAllowedDir
    /\ startsWith (resolve (Posix.platform repoFs)
                           [normalize (Posix.platform repoFs) ".claude/shared"])
                  (withSep (Posix.platform repoFs) resolvedAllowedDir) = true
    /\ existsSync (Posix.platform repoFs)
                  (resolve (Posix.platform repoFs)
                           [normalize (Posix.platform repoFs) ".claude/shared"]) = true
    /\ realpathSync (Posix.platform repoFs)
                    (resolve (Posix.platform repoFs)
                             [normalize (Posix.platform repoFs) ".claude/shared"])
       = Some "/repo/docs/shared"
    /\ startsWith "/repo/docs/shared"
                  (withSep (Posix.platform repoFs)
                           (resolve (Posix.platform repoFs) [resolvedAllowedDir; ".."]))
       = true
    /\ includes (normalize (Posix.platform repoFs) ".claude/shared") ".." = false.
Proof.
  apply (validated_path_guarantees (Posix.platform repoFs) ".claude/shared" ".claude"
           "/repo/docs/shared").
  vm_compute. reflexivity.
Defined.

(** X16: a failure of [validatePath] always carries one of the six reason
    codes of its steps, and the path it reports is the target, except for
    [allowed_dir_not_found], where it is the allowed directory. *)
Theorem validatePath_failure_report (P : Platform) (targetPath allowedDir : string)
        (e : SecurityError) :
  validatePath P targetPath allowedDir = err e ->
  In (reason e) validatePathReasons
  /\ (reason e = "allowed_dir_not_found" ->
      realpathSync P allowedDir = None /\ attemptedPath e = allowedDir)
  /\ (reason e <> "allowed_dir_not_found" ->
      realpathSync P allowedDir <> None /\ attemptedPath e = targetPath).
Proof.
  unfold validatePath. intros H.
  destruct (realpathSync P allowedDir) as [rad|].
  2:{ injection H as <-. cbn [reason attemptedPath].
      split; [simpl; auto|]. split; [auto | congruence]. }
  cbv zeta in H.
  assert (Hsome : Some rad <> None) by discriminate.
  destruct (startsWith _ (withSep P rad)); cbn [negb] in H.
  2:{ injection H as <-. cbn [reason attemptedPath].
      split; [simpl; auto|]. split; [discriminate | auto]. }
  destruct (existsSync P _); cbn [negb] in H.
  2:{ injection H as <-. cbn [reason attemptedPath].
      split; [simpl; auto|]. split; [discriminate | auto]. }
  destruct (realpathSync P (resolve P [normalize P targetPath])) as [rp|].
  2:{ injection H as <-. cbn [reason attemptedPath].
      split; [simpl; auto 6|]. split; [discriminate | auto]. }
  destruct (startsWith rp _); cbn [negb] in H.
  2:{ injection H as <-. cbn [reason attemptedPath].
      split; [simpl; auto 6|]. split; [discriminate | auto]. }
  destruct (includes _ ".."); [|discriminate H].
  injection H as <-. cbn [reason attemptedPath].
  split; [simpl; auto 7|]. split; [discriminate | auto].
Qed.

Lemma validatePath_failure_report_witness :
  exists e, validatePath (Posix.platform repoFs) ".claude/missing" ".claude" = err e
            /\ In (reason e) validatePathReasons
            /\ attemptedPath e = ".claude/missing".
Proof.
  assert (E : exists e, validatePath (Posix.platform repoFs) ".claude/missing" ".claude"
                        = err e) by (eexists; vm_compute; reflexivity).
  destruct E as [e E]. exists e. split; [exact E|].
  destruct (validatePath_failure_report (Posix.platform repoFs) ".claude/missing"
              ".claude" e E) as [Hin [_ Hat]].
  split; [exact Hin|]. apply Hat.
  vm_compute in E. injection E as <-. discriminate.
Defined.

(** ** Type checks *)

(** X17: no path passes both type checks: where [validateIsDirectory]
    succeeds, [validateIsFile] fails with [not_a_file], and where
    [validateIsFile] succeeds, [validateIsDirectory] fails with
    [not_a_directory]; either failure reports the path checked. *)
Theorem type_checks_exclude_each_other (statSync : string -> option Stats)
        (path : string) :
  (validateIsDirectory statSync path = ok tt ->
   exists e, validateIsFile statSync path = err e
             /\ reason e = "not_a_file" /\ attemptedPath e = path)
  /\ (validateIsFile statSync path = ok tt ->
      exists e, validateIsDirectory statSync path = err e
                /\ reason e = "not_a_directory" /\ attemptedPath e = path).
Proof.
  unfold validateIsDirectory, validateIsFile.
  destruct (statSync path) as [[| |]|]; cbn [isDirectory isFile negb]; split; intros H;
    try discriminate H; eexists; repeat split.
Qed.

(** A path that cannot be examined fails both type checks with
    [stat_failed], and a file that is neither regular nor a directory fails
    them with [not_a_directory] and [not_a_file]. *)
Theorem type_checks_on_missing_and_special (statSync : string -> option Stats)
        (path : string) :
  (statSync path = None ->
   exists e e', validateIsDirectory statSync path = err e
                /\ validateIsFile statSync path = err e'
                /\ reason e = "stat_failed" /\ reason e' = "stat_failed")
  /\ (statSync path = Some OtherFile ->
      exists e e', validateIsDirectory statSync path = err e
                   /\ validateIsFile statSync path = err e'
                   /\ reason e = "not_a_directory" /\ reason e' = "not_a_file").
Proof.
  unfold validateIsDirectory, validateIsFile.
  split; intros ->; cbn [isDirectory isFile negb]; eexists _, _; repeat split.
Qed.

(** ** Log sanitising *)

Module RedactFacts.
Import Redact.

Section Rep.
Variables (cls : ascii -> bool) (min : nat) (max : option nat)
          (k : option ascii -> string -> nat -> option nat).

Lemma repK_inv (s : string) :
  forall count prev n r,
    repK cls min max k count prev s n = Some r ->
    exists pre rest prev',
      s = pre ++ rest /\ allChars cls pre = true
      /\ (min <= count + String.length pre)%nat
      /\ k prev' rest (n + String.length pre)%nat = Some r.
Proof.
  induction s as [|a s IH]; intros count prev n r H; cbn [repK] in H.
  - destruct (Nat.leb_spec min count); [|discriminate H].
    exists "", "", prev. cbn. rewrite !Nat.add_0_r. auto.
  - assert (Hstop : (if Nat.leb min count then k prev (String a s) n else None) = Some r ->
                    exists pre rest prev',
                      String a s = pre ++ rest /\ allChars cls pre = true
                      /\ (min <= count + String.length pre)%nat
                      /\ k prev' rest (n + String.length pre)%nat = Some r).
    { intros Hs. destruct (Nat.leb_spec min count); [|discriminate Hs].
      exists "", (String a s), prev. cbn. rewrite !Nat.add_0_r. auto. }
    destruct (cls a && withinMax count max) eqn:E; [|auto].
    destruct (repK cls min max k (S count) (Some a) s (S n)) as [r'|] eqn:R; [|auto].
    injection H as ->. apply andb_true_iff in E. destruct E as [Ea _].
    destruct (IH _ _ _ _ R) as [pre [rest [prev' [Hs [Hall [Hmin Hk]]]]]].
    exists (String a pre), rest, prev'. cbn. rewrite Ea, Hall. subst s.
    repeat split; auto; [lia|]. rewrite <- Hk. f_equal. lia.
Qed.

(** With nothing left to match afterwards and no upper bound, the greedy
    repetition takes every leading character of the class. *)
Lemma repK_finish (s : string) :
  forall count prev n,
    max = None -> (min <= count)%nat ->
    exists r, repK cls min max (fun _ _ m => Some m) count prev s n = Some r.
Proof.
  induction s as [|a s IH]; intros count prev n Hmax Hmin; cbn [repK].
  - apply Nat.leb_le in Hmin. rewrite Hmin. eauto.
  - destruct (cls a && withinMax count max).
    + destruct (IH (S count) (Some a) (S n) Hmax) as [r ->]; [lia | eauto].
    + apply Nat.leb_le in Hmin. rewrite Hmin. eauto.
Qed.

Lemma repK_all (s : string) :
  forall count prev n,
    max = None -> allChars cls s = true -> (min <= count + String.length s)%nat ->
    repK cls min max (fun _ _ m => Some m) count prev s n
    = Some (n + String.length s)%nat.
Proof.
  induction s as [|a s IH]; intros count prev n Hmax Hall Hmin; cbn [repK].
  - cbn in Hmin. rewrite Nat.add_0_r in Hmin. apply Nat.leb_le in Hmin.
    rewrite Hmin. cbn. now rewrite Nat.add_0_r.
  - cbn in Hall. apply andb_true_iff in Hall. destruct Hall as [Ha Hall].
    assert (Hw : withinMax count max = true) by (rewrite Hmax; reflexivity).
    rewrite Ha, Hw. cbn [andb].
    rewrite IH; [|exact Hmax|exact Hall|cbn in Hmin; lia].
    f_equal. cbn. lia.
Qed.
End Rep.

(** The match counter only grows. *)
Lemma matchK_ge (p : pattern) :
  forall prev s n k r,
    (forall prev' s' n' r', k prev' s' n' = Some r' -> (n' <= r')%nat) ->
    matchK p prev s n k = Some r -> (n <= r)%nat.
Proof.
  induction p as [c|cls min max|p IHp q IHq|]; intros prev s n k r Hk H; cbn [matchK] in H.
  - destruct s as [|a s]; [discriminate H|].
    destruct (Ascii.eqb a c); [|discriminate H].
    apply Hk in H. lia.
  - destruct (repK_inv _ _ _ _ _ _ _ _ _ H) as [pre [rest [prev' [_ [_ [_ Hr]]]]]].
    apply Hk in Hr. lia.
  - eapply IHp; [|exact H]. intros prev' s' n' r' H'.
    eapply IHq; [|exact H']. exact Hk.
  - destruct (xorb _ _); [|discriminate H]. now apply Hk in H.
Qed.

Lemma matchK_ge_final (p : pattern) (prev : option ascii) (s : string) (n r : nat) :
  matchK p prev s n (fun _ _ m => Some m) = Some r -> (n <= r)%nat.
Proof.
  apply matchK_ge. intros _ _ n' r' [= ->]. lia.
Qed.

Lemma matchK_Cat p q prev s n k :
  matchK (Cat p q) prev s n k
  = matchK p prev s n (fun prev' s' n' => matchK q prev' s' n' k).
Proof. reflexivity. Qed.

Lemma matchK_Boundary prev s n k :
  matchK Boundary prev s n k
  = if xorb (Regex.isWordAt prev) (Regex.isWordAt (Regex.head s)) then k prev s n else None.
Proof. reflexivity. Qed.

Lemma matchK_Rep cls min max prev s n k :
  matchK (Rep cls min max) prev s n k = repK cls min max k O prev s n.
Proof. reflexivity. Qed.

Lemma matchK_Lit c prev s n k :
  matchK (Lit c) prev s n k
  = match s with
    | String a s' => if Ascii.eqb a c then k (Some a) s' (S n) else None
    | EmptyString => None
    end.
Proof. reflexivity. Qed.

(** *** The three patterns *)

Lemma space_not_slash (b : ascii) : isSpace b = true -> Ascii.eqb b "/" = false.
Proof. destruct (Ascii.eqb_spec b "/") as [->|]; [discriminate | reflexivity]. Qed.

Lemma space_not_local (b : ascii) : isSpace b = true -> localChar b = false.
Proof. destruct b as [[] [] [] [] [] [] [] []]; vm_compute; congruence. Qed.

Lemma space_not_digit (b : ascii) : isSpace b = true -> isDigit b = false.
Proof. destruct b as [[] [] [] [] [] [] [] []]; vm_compute; congruence. Qed.

(** What the patterns need of the input to match at all. *)
Lemma absolutePath_match (prev : option ascii) (s : string) (len : nat) :
  matchLen absolutePath prev s = Some len ->
  (2 <= len)%nat /\ exists b rest, s = String "/" (String b rest) /\ notSpace b = true.
Proof.
  unfold matchLen, absolutePath, oneOrMore.
  rewrite matchK_Cat, matchK_Lit. intros H.
  destruct s as [|a s]; [discriminate H|].
  destruct (Ascii.eqb_spec a "/") as [->|]; [|discriminate H].
  rewrite matchK_Rep in H.
  destruct (repK_inv _ _ _ _ _ _ _ _ _ H) as [pre [rest [prev' [Hs [Hall [Hmin Hr]]]]]].
  injection Hr as <-. split; [lia|].
  destruct pre as [|b pre]; [cbn in Hmin; lia|].
  cbn in Hall. apply andb_true_iff in Hall. destruct Hall as [Hb _].
  exists b, (pre ++ rest). split; [now rewrite Hs | exact Hb].
Qed.

Lemma email_match (prev : option ascii) (s : string) (len : nat) :
  matchLen email prev s = Some len ->
  (1 <= len)%nat
  /\ (exists b rest, s = String b rest /\ localChar b = true)
  /\ exists pre rest, s = pre ++ String "@" rest.
Proof.
  unfold matchLen, email, oneOrMore.
  rewrite matchK_Cat, matchK_Boundary. intros H.
  destruct (xorb _ _); [|discriminate H].
  rewrite matchK_Cat, matchK_Rep in H.
  destruct (repK_inv _ _ _ _ _ _ _ _ _ H) as [pre [rest [prev' [Hs [Hall [Hmin Hr]]]]]].
  assert (Hlen : (0 + String.length pre <= len)%nat).
  { eapply matchK_ge; [|exact Hr]. intros _ _ n' r' [= ->]. lia. }
  split; [lia|]. split.
  - destruct pre as [|b pre]; [cbn in Hmin; lia|].
    cbn in Hall. apply andb_true_iff in Hall. destruct Hall as [Hb _].
    exists b, (pre ++ rest). split; [now rewrite Hs | exact Hb].
  - rewrite matchK_Cat, matchK_Lit in Hr. destruct rest as [|a rest]; [discriminate Hr|].
    destruct (Ascii.eqb_spec a "@") as [->|]; [|discriminate Hr].
    exists pre, rest. exact Hs.
Qed.

Lemma ssn_match (prev : option ascii) (s : string) (len : nat) :
  matchLen ssn prev s = Some len ->
  (3 <= len)%nat /\ exists b rest, s = String b rest /\ isDigit b = true.
Proof.
  unfold matchLen, ssn, exactly.
  rewrite matchK_Cat, matchK_Boundary. intros H.
  destruct (xorb _ _); [|discriminate H].
  rewrite matchK_Cat, matchK_Rep in H.
  destruct (repK_inv _ _ _ _ _ _ _ _ _ H) as [pre [rest [prev' [Hs [Hall [Hmin Hr]]]]]].
  assert (Hlen : (0 + String.length pre <= len)%nat).
  { eapply matchK_ge; [|exact Hr]. intros _ _ n' r' [= ->]. lia. }
  split; [lia|].
  destruct pre as [|b pre]; [cbn in Hmin; lia|].
  cbn in Hall. apply andb_true_iff in Hall. destruct Hall as [Hb _].
  exists b, (pre ++ rest). split; [now rewrite Hs | exact Hb].
Qed.

(** A slash followed by a character that is not white space starts a
    match of the path pattern. *)
Lemma absolutePath_matches (prev : option ascii) (b : ascii) (rest : string) :
  notSpace b = true ->
  matchLen absolutePath prev (String "/" (String b rest)) <> None.
Proof.
  intros Hb. unfold matchLen, absolutePath, oneOrMore.
  rewrite matchK_Cat, matchK_Lit, Ascii.eqb_refl, matchK_Rep. cbn [repK].
  rewrite Hb. cbn [withinMax andb].
  destruct (repK_finish notSpace 1 None rest 1 (Some b) 2 eq_refl (le_n 1)) as [r ->].
  discriminate.
Qed.

(** *** Global replacement *)

Lemma absolutePath_tame : tame absolutePath.
Proof.
  intros prev s len H. destruct (absolutePath_match _ _ _ H) as [Hl [b [rest [-> _]]]].
  split; [lia|]. exists "/"%char, (String b rest). split; reflexivity.
Qed.

Lemma email_tame : tame email.
Proof.
  intros prev s len H. destruct (email_match _ _ _ H) as [Hl [[b [rest [-> Hb]]] _]].
  split; [exact Hl|]. exists b, rest. split; [reflexivity|].
  destruct (isSpace b) eqn:E; [|reflexivity].
  apply space_not_local in E. congruence.
Qed.

Lemma ssn_tame : tame ssn.
Proof.
  intros prev s len H. destruct (ssn_match _ _ _ H) as [Hl [b [rest [-> Hb]]]].
  split; [lia|]. exists b, rest. split; [reflexivity|].
  destruct (isSpace b) eqn:E; [|reflexivity].
  apply space_not_digit in E. congruence.
Qed.

Lemma tame_nil (p : pattern) (prev : option ascii) :
  tame p -> matchLen p prev "" = None.
Proof.
  intros T. destruct (matchLen p prev "") as [len|] eqn:E; [|reflexivity].
  destruct (T _ _ _ E) as [_ [b [rest [Hs _]]]]. discriminate Hs.
Qed.

Lemma tame_space (p : pattern) (prev : option ascii) (b : ascii) (s : string) :
  tame p -> isSpace b = true -> matchLen p prev (String b s) = None.
Proof.
  intros T Hb. destruct (matchLen p prev (String b s)) as [len|] eqn:E; [|reflexivity].
  destruct (T _ _ _ E) as [_ [b' [rest [Hs Hb']]]]. injection Hs as <- _. congruence.
Qed.

Lemma replaceFrom_nil (p : pattern) (repl : string) (prev : option ascii) (skip : nat) :
  tame p -> replaceFrom p repl prev "" skip = "".
Proof. intros T. cbn [replaceFrom]. now rewrite tame_nil. Qed.

Lemma pathFree_cons_other (c : ascii) (s : string) :
  notSlash c = true -> pathFree (String c s) = pathFree s.
Proof.
  unfold notSlash. intros H. apply negb_true_iff in H. cbn [pathFree]. now rewrite H.
Qed.

Lemma pathFree_app (a b : string) :
  allChars notSlash a = true -> pathFree b = true -> pathFree (a ++ b) = true.
Proof.
  induction a as [|c a IH]; intros Ha Hb; [exact Hb|].
  cbn in Ha. apply andb_true_iff in Ha. destruct Ha as [Hc Ha].
  cbn [append]. rewrite pathFree_cons_other by exact Hc. auto.
Qed.

(** Replacing the matches of a tame pattern by a text without slash gives
    a text in which no slash is followed by anything but white space,
    provided the pattern catches every slash of the input that is. *)
Lemma replaceFrom_pathFree (p : pattern) (repl : string) :
  tame p -> allChars notSlash repl = true ->
  forall s,
    (forall pre b rest prev,
        s = pre ++ String "/" (String b rest) -> isSpace b = false ->
        matchLen p prev (String "/" (String b rest)) <> None) ->
    forall prev skip, pathFree (replaceFrom p repl prev s skip) = true.
Proof.
  intros T Hrepl. induction s as [|a s IH]; intros Good prev skip.
  - now rewrite replaceFrom_nil.
  - assert (Good' : forall pre b rest prev,
               s = pre ++ String "/" (String b rest) -> isSpace b = false ->
               matchLen p prev (String "/" (String b rest)) <> None).
    { intros pre b rest prev' Hs Hb. apply (Good (String a pre)); [|exact Hb].
      cbn. now rewrite Hs. }
    cbn [replaceFrom]. destruct skip as [|skip]; [|apply IH; exact Good'].
    destruct (matchLen p prev (String a s)) as [[|len]|] eqn:E.
    + destruct (T _ _ _ E) as [Hl _]. lia.
    + apply pathFree_app; [exact Hrepl | apply IH; exact Good'].
    + destruct (Ascii.eqb_spec a "/") as [->|Hne].
      * destruct s as [|b s].
        { rewrite replaceFrom_nil by exact T. reflexivity. }
        destruct (isSpace b) eqn:Hb.
        -- specialize (IH Good' (Some "/"%char) O).
           cbn [replaceFrom] in IH |- *.
           rewrite (tame_space p _ b s T Hb) in IH |- *.
           cbn [pathFree] in IH |- *. cbn [Ascii.eqb Bool.eqb]. rewrite Hb.
           exact IH.
        -- exfalso. apply (Good "" b s prev eq_refl Hb). exact E.
      * rewrite pathFree_cons_other; [apply IH; exact Good'|].
        unfold notSlash. apply negb_true_iff. now apply Ascii.eqb_neq.
Qed.

Lemma pathFree_no_fragment (pre : string) (b : ascii) (post : string) :
  pathFree (pre ++ String "/" (String b post)) = true -> isSpace b = true.
Proof.
  induction pre as [|c pre IH]; cbn [append pathFree]; intros H.
  - cbn [Ascii.eqb Bool.eqb] in H. apply andb_true_iff in H. tauto.
  - apply andb_true_iff in H. destruct H as [_ H]. auto.
Qed.

Lemma pathFree_catches (p : pattern) (s : string) :
  pathFree s = true ->
  forall pre b rest (prev : option ascii),
    s = pre ++ String "/" (String b rest) -> isSpace b = false ->
    matchLen p prev (String "/" (String b rest)) <> None.
Proof.
  intros H pre b rest prev Hs Hb. exfalso. rewrite Hs in H.
  apply pathFree_no_fragment in H. congruence.
Qed.

(** X18: whatever the message, no absolute-path fragment survives the
    sanitiser: in its output a slash is only ever followed by white space
    (or by nothing). *)
Theorem sanitized_has_no_path_fragment (errorMessage pre post : string) (b : ascii) :
  sanitizeErrorForLogging errorMessage = pre ++ String "/" (String b post) ->
  isSpace b = true.
Proof.
  intros H. apply (pathFree_no_fragment pre b post). rewrite <- H.
  unfold sanitizeErrorForLogging, replaceAll. cbv zeta.
  apply replaceFrom_pathFree; [exact ssn_tame | reflexivity|].
  apply pathFree_catches.
  apply replaceFrom_pathFree; [exact email_tame | reflexivity|].
  apply pathFree_catches.
  apply replaceFrom_pathFree; [exact absolutePath_tame | reflexivity|].
  intros pre' b' rest prev _ Hb. apply absolutePath_matches.
  unfold notSpace. now rewrite Hb.
Qed.

Lemma allChars_app (f : ascii -> bool) (a b : string) :
  allChars f (a ++ b) = allChars f a && allChars f b.
Proof.
  induction a as [|c a IH]; cbn; [reflexivity|]. now rewrite IH, andb_assoc.
Qed.

Lemma allChars_weaken (f g : ascii -> bool) (s : string) :
  (forall c, f c = true -> g c = true) -> allChars f s = true -> allChars g s = true.
Proof.
  intros H. induction s as [|c s IH]; cbn; [reflexivity|].
  intros E. apply andb_true_iff in E. destruct E as [Ec Es].
  now rewrite (H _ Ec), IH.
Qed.

(** Where the pattern matches nowhere, the replacement changes nothing. *)
Lemma replaceFrom_id (p : pattern) (repl : string) (f : ascii -> bool) :
  (forall prev t, allChars f t = true -> matchLen p prev t = None) ->
  forall s prev, allChars f s = true -> replaceFrom p repl prev s O = s.
Proof.
  intros Hno. induction s as [|a s IH]; intros prev Hs; cbn [replaceFrom].
  - now rewrite Hno.
  - rewrite (Hno prev (String a s) Hs). f_equal. apply IH.
    cbn in Hs. apply andb_true_iff in Hs. tauto.
Qed.

Lemma absolutePath_needs_slash (prev : option ascii) (t : string) :
  allChars notSlash t = true -> matchLen absolutePath prev t = None.
Proof.
  intros H. destruct (matchLen absolutePath prev t) as [len|] eqn:E; [|reflexivity].
  destruct (absolutePath_match _ _ _ E) as [_ [b [rest [-> _]]]]. discriminate H.
Qed.

Lemma email_needs_at (prev : option ascii) (t : string) :
  allChars (fun c => negb (Ascii.eqb c "@")) t = true -> matchLen email prev t = None.
Proof.
  intros H. destruct (matchLen email prev t) as [len|] eqn:E; [|reflexivity].
  destruct (email_match _ _ _ E) as [_ [_ [pre [rest ->]]]].
  rewrite allChars_app in H. apply andb_true_iff in H. destruct H as [_ H].
  discriminate H.
Qed.

Lemma ssn_needs_digit (prev : option ascii) (t : string) :
  allChars (fun c => negb (isDigit c)) t = true -> matchLen ssn prev t = None.
Proof.
  intros H. destruct (matchLen ssn prev t) as [len|] eqn:E; [|reflexivity].
  destruct (ssn_match _ _ _ E) as [_ [b [rest [-> Hb]]]].
  cbn in H. rewrite Hb in H. discriminate H.
Qed.

(** X19: a message without slash, at sign and digit passes through the
    sanitiser unchanged. *)
Theorem harmless_message_unchanged (errorMessage : string) :
  allChars harmless errorMessage = true ->
  sanitizeErrorForLogging errorMessage = errorMessage.
Proof.
  intros H. unfold sanitizeErrorForLogging, replaceAll. cbv zeta.
  assert (H1 : allChars notSlash errorMessage = true).
  { revert H. apply allChars_weaken. unfold harmless. intros c Hc.
    apply andb_true_iff in Hc. destruct Hc as [Hc _].
    apply andb_true_iff in Hc. tauto. }
  assert (H2 : allChars (fun c => negb (Ascii.eqb c "@")) errorMessage = true).
  { revert H. apply allChars_weaken. unfold harmless. intros c Hc.
    apply andb_true_iff in Hc. destruct Hc as [Hc _].
    apply andb_true_iff in Hc. tauto. }
  assert (H3 : allChars (fun c => negb (isDigit c)) errorMessage = true).
  { revert H. apply allChars_weaken. unfold harmless. intros c Hc.
    apply andb_true_iff in Hc. tauto. }
  rewrite (replaceFrom_id absolutePath _ _ absolutePath_needs_slash _ _ H1).
  rewrite (replaceFrom_id email _ _ email_needs_at _ _ H2).
  exact (replaceFrom_id ssn _ _ ssn_needs_digit _ _ H3).
Qed.

Lemma replaceFrom_skip_all (p : pattern) (repl : string) (s : string) :
  tame p -> forall prev, replaceFrom p repl prev s (String.length s) = "".
Proof.
  intros T. induction s as [|a s IH]; intros prev.
  - now apply replaceFrom_nil.
  - cbn [replaceFrom String.length]. apply IH.
Qed.

(** A plain absolute path at the end of a message without other slashes is
    replaced as a whole. *)
Lemma replace_trailing_path (prefix path : string) :
  allChars notSlash prefix = true -> plainAbsolute path = true ->
  forall prev, replaceFrom absolutePath "[PATH]" prev (prefix ++ path) O
               = prefix ++ "[PATH]".
Proof.
  intros Hp Hpath. induction prefix as [|c prefix IH]; intros prev.
  - cbn [append]. destruct path as [|c [|b rest]]; try discriminate Hpath.
    cbn [plainAbsolute] in Hpath. apply andb_true_iff in Hpath.
    destruct Hpath as [Hc Hall]. apply Ascii.eqb_eq in Hc. subst c.
    assert (E : matchLen absolutePath prev (String "/" (String b rest))
                = Some (S (String.length (String b rest)))).
    { unfold matchLen, absolutePath, oneOrMore.
      rewrite matchK_Cat, matchK_Lit, Ascii.eqb_refl, matchK_Rep.
      rewrite repK_all; [reflexivity | reflexivity | exact Hall | cbn; lia]. }
    cbn [replaceFrom]. rewrite E. cbn [String.length].
    rewrite (replaceFrom_skip_all _ _ _ absolutePath_tame). reflexivity.
  - cbn in Hp. apply andb_true_iff in Hp. destruct Hp as [Hc Hp].
    cbn [append replaceFrom].
    assert (E : matchLen absolutePath prev (String c (prefix ++ path)) = None).
    { destruct (matchLen absolutePath prev _) as [len|] eqn:E; [|reflexivity].
      destruct (absolutePath_match _ _ _ E) as [_ [b [rest [Hs _]]]].
      injection Hs as -> _. discriminate Hc. }
    rewrite E. f_equal. apply IH. exact Hp.
Qed.

Lemma sanitize_trailing_path (prefix path : string) :
  allChars notSlash prefix = true -> plainAbsolute path = true ->
  sanitizeErrorForLogging (prefix ++ path)
  = replaceAll ssn "[SSN]" (replaceAll email "[EMAIL]" (prefix ++ "[PATH]")).
Proof.
  intros Hp Hpath. unfold sanitizeErrorForLogging. cbv zeta.
  unfold replaceAll at 3. now rewrite replace_trailing_path.
Qed.

Ltac trailing_path prefix path :=
  change (In (sanitizeErrorForLogging (prefix ++ path)) sanitizedValidationMessages);
  rewrite (sanitize_trailing_path prefix path) by (assumption || reflexivity);
  vm_compute; auto 7.

(** X20: when the target and the allowed directory are plain absolute
    paths (no white space), the sanitised message of every failure of
    [validatePath] is one of six fixed texts: nothing of either path is
    left in it. *)
Theorem sanitized_validation_errors_hide_paths (P : Platform)
        (targetPath allowedDir : string) (e : SecurityError) :
  plainAbsolute targetPath = true -> plainAbsolute allowedDir = true ->
  validatePath P targetPath allowedDir = err e ->
  In (sanitizeErrorForLogging (message e)) sanitizedValidationMessages.
Proof.
  intros Ht Ha. unfold validatePath. intros H.
  destruct (realpathSync P allowedDir) as [rad|].
  2:{ injection H as <-. cbn [message].
      trailing_path "Allowed directory does not exist: " allowedDir. }
  cbv zeta in H.
  destruct (startsWith _ (withSep P rad)); cbn [negb] in H.
  2:{ injection H as <-. cbn [message]. vm_compute. auto. }
  destruct (existsSync P _); cbn [negb] in H.
  2:{ injection H as <-. cbn [message].
      trailing_path "Path does not exist: " targetPath. }
  destruct (realpathSync P (resolve P [normalize P targetPath])) as [rp|].
  2:{ injection H as <-. cbn [message].
      trailing_path "Cannot resolve path: " targetPath. }
  destruct (startsWith rp _); cbn [negb] in H.
  2:{ injection H as <-. cbn [message]. vm_compute. auto 6. }
  destruct (includes _ ".."); [|discriminate H].
  injection H as <-. cbn [message].
  trailing_path "Path traversal detected: " targetPath.
Qed.

Lemma sanitized_has_no_path_fragment_witness : isSpace " " = true.
Proof.
  apply (sanitized_has_no_path_fragment "see / and /etc/passwd" "see " "and [PATH]").
  vm_compute. reflexivity.
Defined.

Lemma harmless_message_unchanged_witness :
  sanitizeErrorForLogging "Cannot stat path" = "Cannot stat path".
Proof.
  apply (harmless_message_unchanged "Cannot stat path"). vm_compute. reflexivity.
Defined.

Lemma sanitized_validation_errors_hide_paths_witness :
  exists e, validatePath (Posix.platform repoFs) "/repo/.claude/missing" "/repo/.claude"
            = err e
            /\ In (sanitizeErrorForLogging (message e)) sanitizedValidationMessages.
Proof.
  assert (E : exists e, validatePath (Posix.platform repoFs) "/repo/.claude/missing"
                                     "/repo/.claude" = err e)
    by (eexists; vm_compute; reflexivity).
  destruct E as [e E]. exists e. split; [exact E|].
  apply (sanitized_validation_errors_hide_paths (Posix.platform repoFs)
           "/repo/.claude/missing" "/repo/.claude" e); [reflexivity | reflexivity | exact E].
Defined.

Example sanitize_examples :
  map sanitizeErrorForLogging
      [ "Path does not exist: /home/me/.ssh/id_rsa";
        "Path does not exist: /home/my docs/x";
        "Path does not exist: secret/notes.md";
        "mail bob.smith+x@example.co.uk now";
        "mail bob@example.c";
        "x a@b.c|9 y";
        "ssn 123-45-6789.";
        "ssn 1123-45-6789";
        "see http://x.org/a b" ]
  = [ "Path does not exist: [PATH]";
      "Path does not exist: [PATH] docs[PATH]";
      "Path does not exist: secret[PATH]";
      "mail [EMAIL] now";
      "mail bob@example.c";
      "x [EMAIL]9 y";
      "ssn [SSN].";
      "ssn 1123-45-6789";
      "see http:[PATH] b" ].
Proof. vm_compute. reflexivity. Qed.

Lemma harmless_parts (c : ascii) :
  harmless c = true ->
  notSlash c = true /\ negb (Ascii.eqb c "@") = true /\ negb (isDigit c) = true.
Proof.
  unfold harmless. intros H. apply andb_true_iff in H. destruct H as [H H3].
  apply andb_true_iff in H. tauto.
Qed.

(** X21: the path pattern is applied first and takes everything up to the
    next white space: after a text without slash, at sign and digit, a
    plain absolute path is replaced as a whole by [[PATH]], whatever else
    it looks like (an address, a number). *)
Theorem trailing_path_is_redacted_whole (prefix path : string) :
  allChars harmless prefix = true -> plainAbsolute path = true ->
  sanitizeErrorForLogging (prefix ++ path) = prefix ++ "[PATH]".
Proof.
  intros Hp Hpath.
  assert (H1 : allChars notSlash prefix = true)
    by (revert Hp; apply allChars_weaken; intros c Hc; now apply harmless_parts).
  assert (H2 : allChars (fun c => negb (Ascii.eqb c "@")) (prefix ++ "[PATH]") = true).
  { rewrite allChars_app. apply andb_true_iff. split; [|reflexivity].
    revert Hp. apply allChars_weaken. intros c Hc. now apply harmless_parts. }
  assert (H3 : allChars (fun c => negb (isDigit c)) (prefix ++ "[PATH]") = true).
  { rewrite allChars_app. apply andb_true_iff. split; [|reflexivity].
    revert Hp. apply allChars_weaken. intros c Hc. now apply harmless_parts. }
  rewrite sanitize_trailing_path by assumption. unfold replaceAll.
  rewrite (replaceFrom_id email _ _ email_needs_at _ _ H2).
  exact (replaceFrom_id ssn _ _ ssn_needs_digit _ _ H3).
Qed.

Lemma trailing_path_is_redacted_whole_witness :
  sanitizeErrorForLogging ("Cannot resolve path: " ++ "/home/bob@example.com/123-45-6789")
  = "Cannot resolve path: " ++ "[PATH]".
Proof.
  apply (trailing_path_is_redacted_whole "Cannot resolve path: "
           "/home/bob@example.com/123-45-6789"); vm_compute; reflexivity.
Defined.

End RedactFacts.

Example type_check_examples :
  validateIsDirectory repoStat "/repo/.claude/skills" = ok tt
  /\ validateIsFile repoStat "/repo/.claude/notes..md" = ok tt
  /\ (exists e, validateIsFile repoStat "/dev/null" = err e /\ reason e = "not_a_file")
  /\ (exists e, validateIsFile repoStat "/nowhere" = err e /\ reason e = "stat_failed").
Proof. repeat split; try (eexists; split); vm_compute; reflexivity. Qed.

(** ** Skill names outside the table *)

(** X22: a skill name that is not a key of the skill-to-category table
    gets content score 0 with no match when it is not a member of
    [Object.prototype], and makes the content scorer throw when it is. *)
Theorem content_score_outside_table (prompt skillName : string) :
  ownProperty skillPatterns skillName = None ->
  (existsb (String.eqb skillName) Object_prototype = false ->
   calculateContentScore prompt skillName = Returns (mkScoreResult 0 []))
  /\ (existsb (String.eqb skillName) Object_prototype = true ->
      calculateContentScore prompt skillName
      = Throws (TypeError "relevantPatterns is not iterable")).
Proof.
  intros Hown. unfold calculateContentScore, getProperty. rewrite Hown.
  split; intros ->; reflexivity.
Qed.

Lemma content_score_outside_table_witness :
  calculateContentScore "build a form" "tailwind-patterns" = Returns (mkScoreResult 0 [])
  /\ calculateContentScore "build a form" "toString"
     = Throws (TypeError "relevantPatterns is not iterable").
Proof.
  split.
  - exact (proj1 (content_score_outside_table "build a form" "tailwind-patterns" eq_refl)
                 eq_refl).
  - exact (proj2 (content_score_outside_table "build a form" "toString" eq_refl)
                 eq_refl).
Defined.

(** X23: [calculateConfidence] returns a result exactly for the skills
    whose name is not a member of [Object.prototype]; for the others it
    throws, whatever the prompt, the keywords and the context. *)
Theorem calculateConfidence_returns_iff (minimatch : string -> string -> bool)
        (prompt : string) (skill : DiscoveredSkill) (context : option Context) :
  (exists r, calculateConfidence minimatch prompt skill context = Returns r)
  <-> existsb (String.eqb (name skill)) Object_prototype = false.
Proof.
  split.
  - intros [r Hr].
    destruct (existsb (String.eqb (name skill)) Object_prototype) eqn:Hp; [|reflexivity].
    rewrite (calculateConfidence_throws minimatch prompt skill context Hp) in Hr.
    discriminate Hr.
  - intros Hp. destruct (content_score_returns prompt (name skill) Hp) as [cr [H _]].
    pose proof (calculateConfidence_eq minimatch prompt skill context _ H) as E.
    cbv zeta in E. eexists. exact E.
Qed.

Example latin1_capital_is_folded :
  calculateKeywordScore ("CAF" ++ String (ascii_of_nat 201) EmptyString)
                        ["caf" ++ String (ascii_of_nat 233) EmptyString]
  = mkScoreResult 70 ["caf" ++ String (ascii_of_nat 233) EmptyString].
Proof. vm_compute. reflexivity. Qed.
